(** * lvmdbusd object manager: the registry of D-Bus objects

    A shallow embedding of [daemons/lvmdbusd/objectmanager.py]
    (class [ObjectManager]) and the properties of its two dictionaries:
    [_objects], from object path to [(obj, lvm_id, uuid)], and
    [_id_to_object_path], from identifier string to object path.

    Python values are modelled as follows.
    - A [str] is a [string]; a value that is [None] or a [str] is an
      [option string].  Truthiness ([if x:], [assert x], [x and ...]) is
      [truthy]: neither [None] nor the empty string.
    - A [dict] is a [gmap]: the code only looks keys up, stores and deletes
      them, and iterates to build another [dict], so iteration order does not
      reach any result.
    - A method that mutates [self] takes the manager and returns the new one;
      methods that can raise, call the path generator or emit signals run in
      the monad [M] over [world].
    - The lock [self.rlock] brackets every public method and is not modelled:
      the methods are the atomic steps. *)

From Stdlib Require Import Ascii String.
From stdpp Require Import base option list gmap strings fin_maps pretty.

Open Scope string_scope.
Open Scope list_scope.

(** ** Python strings *)

(** [bool(s)] for a [str]. *)
Definition str_truthy (s : string) : bool :=
  match s with EmptyString => false | String _ _ => true end.

(** [bool(x)] for a value that is [None] or a [str]. *)
Definition truthy (x : option string) : bool :=
  match x with None => false | Some s => str_truthy s end.

(** ["/" in s] *)
Fixpoint contains_slash (s : string) : bool :=
  match s with
  | EmptyString => false
  | String c rest => if Ascii.eqb c "/"%char then true else contains_slash rest
  end.

(** [s.startswith('/')] *)
Definition startswith_slash (s : string) : bool :=
  match s with
  | String c _ => Ascii.eqb c "/"%char
  | EmptyString => false
  end.

(** [s.split("/", 1)]: at most one split, at the first ["/"]. *)
Fixpoint split_slash_1 (s : string) : list string :=
  match s with
  | EmptyString => [""]
  | String c rest =>
      if Ascii.eqb c "/"%char then [""; rest]
      else match split_slash_1 rest with
           | hd :: tl => String c hd :: tl
           | [] => [String c ""]
           end
  end.

(** ** Collaborators *)

(** The property dictionary of an object, per interface. *)
Definition prop_bag : Type := list (string * list (string * string)).

(** Modelled from the spec: the managed objects are instances of
    [AutomatedProperties], which is not part of the sources at hand.  The
    registry reads from one: [dbus_object_path()] (the spec's
    [handle.path()]), [emit_data()] (the spec's [handle.export()], the pair
    of that same path and the property bag; it may raise), [interface()],
    and the attributes [lvm_id] and [Uuid].  [export_props = None] stands for
    an export that raises. *)
Record dbus_object : Type := {
  ap_o_path : string;
  lvm_id : option string;
  Uuid : option string;
  interface : list string;
  export_props : option prop_bag
}.

Definition dbus_object_path (o : dbus_object) : string := ap_o_path o.

Definition emit_data (o : dbus_object) : option (string * prop_bag) :=
  match export_props o with
  | Some props => Some (ap_o_path o, props)
  | None => None
  end.

(** The path generators of [utils], passed as [path_create].  The code
    calls the generator and compares it with [pv_obj_path_generate]; the
    other generators are told apart by name. *)
Inductive path_generator : Type :=
  | pv_obj_path_generate
  | other_obj_path_generate (name : string).

#[global] Instance path_generator_eq_dec : EqDecision path_generator.
Proof. solve_decision. Defined.

(** ** The registry *)

(** A value of [_objects]: the tuple [(obj, lvm_id, uuid)]; [obj] is [None]
    for a path created ahead of its object. *)
Record entry : Type := {
  e_obj : option dbus_object;
  e_lvm_id : option string;
  e_uuid : option string
}.

Record ObjectManager : Type := {
  _objects : gmap string entry;
  _id_to_object_path : gmap string string
}.

(** [__init__] *)
Definition om_init : ObjectManager :=
  {| _objects := ∅; _id_to_object_path := ∅ |}.

(** [key in d] for a key that is [None] or a [str]: [None] is never a key. *)
Definition key_in {V} (key : option string) (d : gmap string V) : bool :=
  match key with
  | Some k => bool_decide (is_Some (d !! k))
  | None => false
  end.

(** [if key in d: del d[key]] *)
Definition del_if_in {V} (key : option string) (d : gmap string V) : gmap string V :=
  match key with
  | Some k => if key_in key d then delete k d else d
  | None => d
  end.

(** [if key: d[key] = path] *)
Definition set_if_truthy (key : option string) (path : string)
    (d : gmap string string) : gmap string string :=
  match key with
  | Some k => if truthy key then <[k := path]> d else d
  | None => d
  end.

Definition _lookup_remove (obj_path : string) (self : ObjectManager) : ObjectManager :=
  match _objects self !! obj_path with
  | Some e =>
      let idx := del_if_in (e_lvm_id e) (_id_to_object_path self) in
      let idx := del_if_in (e_uuid e) idx in
      {| _objects := delete obj_path (_objects self);
         _id_to_object_path := idx |}
  | None => self
  end.

(** ** Exceptions, the world around the registry, and the monad of methods *)

Inductive exn : Type :=
  | AssertionError
  | AttributeError
  | TypeError
  | ExportError
  | SystemExit (code : nat).

(** What a method sends out: the two [ObjectManager] signals, and the call
    [dbus_object.remove_from_connection(cfg.bus, path)]. *)
Inductive bus_event : Type :=
  | InterfacesAdded (object_path : string) (int_name_prop_dict : prop_bag)
  | InterfacesRemoved (object_path : string) (interface_list : list string)
  | remove_from_connection (object_path : string).

(** [generated] is the list of path generator calls made so far, oldest
    first; [bus] the events sent so far, oldest first. *)
Record world : Type := {
  om : ObjectManager;
  generated : list path_generator;
  bus : list bus_event
}.

Definition world_init : world :=
  {| om := om_init; generated := []; bus := [] |}.

Inductive outcome (A : Type) : Type :=
  | Return (a : A)
  | Raise (e : exn).
Arguments Return {A} a.
Arguments Raise {A} e.

(** A method: from the world before to its outcome and the world after.  A
    raised exception keeps what was mutated before it. *)
Definition M (A : Type) : Type := world → outcome A * world.

Definition ret {A} (a : A) : M A := fun w => (Return a, w).

Definition raise {A} (e : exn) : M A := fun w => (Raise e, w).

Definition bind {A B} (m : M A) (k : A → M B) : M B :=
  fun w =>
    match m w with
    | (Return a, w') => k a w'
    | (Raise e, w') => (Raise e, w')
    end.

Notation "'let*' x := m 'in' k" := (bind m (fun x => k))
  (at level 10, x name, m at level 100, k at level 200, only parsing).
Notation "'do' m 'in' k" := (bind m (fun _ => k))
  (at level 10, m at level 100, k at level 200, only parsing).

(** [assert b] *)
Definition assert_ (b : bool) : M unit :=
  if b then ret tt else raise AssertionError.

(** Read [self]. *)
Definition get_self : M ObjectManager := fun w => (Return (om w), w).

(** The world with [self] replaced. *)
Definition set_om (w : world) (self : ObjectManager) : world :=
  {| om := self; generated := generated w; bus := bus w |}.

(** Run a method body that works on [self] alone. *)
Definition on_self {A} (f : ObjectManager → outcome A * ObjectManager) : M A :=
  fun w => ((f (om w)).1, set_om w (f (om w)).2).

Definition send (ev : bus_event) : M unit :=
  fun w => (Return tt, {| om := om w; generated := generated w; bus := bus w ++ [ev] |}).

(** ** The methods that work on [self] alone *)

Definition _lookup_add (obj : option dbus_object) (path : string)
    (lvm_id uuid : option string) (self : ObjectManager)
    : outcome unit * ObjectManager :=
  (* We could have a temp entry from the forward creation of a path *)
  let self := _lookup_remove path self in
  let self :=
    {| _objects := <[path := {| e_obj := obj; e_lvm_id := lvm_id; e_uuid := uuid |}]>
                     (_objects self);
       _id_to_object_path := _id_to_object_path self |} in
  (* Make sure we have one or the other *)
  if truthy lvm_id || truthy uuid then
    let idx := set_if_truthy lvm_id path (_id_to_object_path self) in
    let idx := set_if_truthy uuid path idx in
    (Return tt, {| _objects := _objects self; _id_to_object_path := idx |})
  else (Raise AssertionError, self).

(** [get_object_by_path]: the object, or [None] both for a path that is not
    registered and for one whose entry holds [None]. *)
Definition get_object_by_path (path : string) (self : ObjectManager)
    : option dbus_object :=
  match _objects self !! path with
  | Some e => e_obj e
  | None => None
  end.

Definition get_object_by_lvm_id (lvm_id : string) (self : ObjectManager)
    : option dbus_object :=
  match _id_to_object_path self !! lvm_id with
  | Some path => get_object_by_path path self
  | None => None
  end.

Definition get_object_path_by_lvm_id (lvm_id : string) (self : ObjectManager)
    : string :=
  match _id_to_object_path self !! lvm_id with
  | Some path => path
  | None => "/"
  end.

Definition _uuid_verify (path : string) (uuid lvm_id : option string)
    (self : ObjectManager) : outcome unit * ObjectManager :=
  if bool_decide (lvm_id ≠ uuid) then
    if truthy uuid && negb (key_in uuid (_id_to_object_path self)) then
      let obj := get_object_by_path path self in
      _lookup_add obj path lvm_id uuid self
    else (Return tt, self)
  else (Return tt, self).

Definition _lvm_id_verify (path : string) (uuid lvm_id : option string)
    (self : ObjectManager) : outcome unit * ObjectManager :=
  if bool_decide (lvm_id ≠ uuid) then
    if truthy lvm_id && negb (key_in lvm_id (_id_to_object_path self)) then
      let obj := get_object_by_path path self in
      _lookup_add obj path lvm_id uuid self
    else (Return tt, self)
  else (Return tt, self).

(** The string built by [vg + "/" + ("[%s]" % lv)]. *)
Definition int_lvm_id_of (vg lv : string) : string :=
  vg +:+ "/" +:+ ("[" +:+ lv +:+ "]").

Section Methods.

(** [os.path.realpath], which reads the file system. *)
Variable realpath : string → string.

(** What a path generator returns, given the generator calls made before
    (the generators of [utils] draw on module-level counters). *)
Variable mint : path_generator → list path_generator → string.

Definition _id_lookup (the_id : option string) (self : ObjectManager)
    : option string :=
  match the_id with
  | Some id =>
      if truthy the_id then
        match _id_to_object_path self !! id with
        | Some path => Some path
        | None =>
            if contains_slash id then
              if startswith_slash id then
                let canonical := realpath id in
                _id_to_object_path self !! canonical
              else
                match split_slash_1 id with
                | [vg; lv] => _id_to_object_path self !! int_lvm_id_of vg lv
                | _ => None (* not reached: the id contains a slash *)
                end
            else None
        end
      else None
  | None => None
  end.

(** [path_create()] *)
Definition call_path_create (path_create : option path_generator) : M string :=
  match path_create with
  | Some g =>
      fun w =>
        (Return (mint g (generated w)),
         {| om := om w; generated := generated w ++ [g]; bus := bus w |})
  | None => raise TypeError
  end.

(** Lines 299-314 of [get_object_path_by_uuid_lvm_id]: the lookups by
    uuid, then by lvm_id, then the creation, once [lvm_id] is settled. *)
Definition lookup_verify_create (uuid lvm_id : option string)
    (path_create : option path_generator) (gen_new : bool) : M (option string) :=
  (* Lets check for the uuid first *)
  let* self := get_self in
  let path := _id_lookup uuid self in
  if truthy path then
    match path with
    | Some p => do on_self (_lvm_id_verify p uuid lvm_id) in ret path
    | None => ret path
    end
  else
    (* Unable to find by UUID, lets lookup by lvm_id *)
    let path := _id_lookup lvm_id self in
    if truthy path then
      match path with
      | Some p => do on_self (_uuid_verify p uuid lvm_id) in ret path
      | None => ret path
      end
    else
      (* We have exhausted all lookups, let's create if we can *)
      if gen_new then
        let* p := call_path_create path_create in
        do on_self (_lookup_add None p lvm_id uuid) in
        ret (Some p)
      else ret path.

Definition get_object_path_by_uuid_lvm_id (uuid lvm_id : option string)
    (path_create : option path_generator) (gen_new : bool) : M (option string) :=
  do assert_ (truthy lvm_id) in
  do assert_ (truthy uuid) in
  do (if gen_new then
        do assert_ (bool_decide (is_Some path_create)) in
        assert_ (bool_decide (uuid ≠ lvm_id))
      else ret tt) in
  if bool_decide (uuid = lvm_id) then
    let* self := get_self in
    ret (_id_lookup lvm_id self)
  else
    let lvm_id :=
      if bool_decide (path_create = Some pv_obj_path_generate)
         && bool_decide (lvm_id = Some "[unknown]")
      then None else lvm_id in
    lookup_verify_create uuid lvm_id path_create gen_new.

Definition get_object_by_uuid_lvm_id (uuid lvm_id : option string)
    : M (option dbus_object) :=
  let* path := get_object_path_by_uuid_lvm_id uuid lvm_id None false in
  let* self := get_self in
  ret (match path with
       | Some p => get_object_by_path p self
       | None => None (* [None] is not a key of [_objects] *)
       end).

Definition register_object (dbus_object : dbus_object) (emit_signal : bool) : M unit :=
  match emit_data dbus_object with
  | Some (path, props) =>
      do on_self (_lookup_add (Some dbus_object) path
                   (lvm_id dbus_object) (Uuid dbus_object)) in
      if emit_signal then send (InterfacesAdded path props) else ret tt
  | None => raise ExportError
  end.

Definition remove_object (dbus_object : dbus_object) (emit_signal : bool) : M unit :=
  (* Store off the object path and the interface first *)
  let path := dbus_object_path dbus_object in
  let interfaces := interface dbus_object in
  do on_self (fun self => (Return tt, _lookup_remove path self)) in
  (* Remove from dbus library *)
  do send (remove_from_connection path) in
  if emit_signal then send (InterfacesRemoved path interfaces) else ret tt.

Definition lookup_update (dbus_obj : dbus_object) (new_uuid new_lvm_id : option string)
    : M unit :=
  let obj_path := dbus_object_path dbus_obj in
  do on_self (fun self => (Return tt, _lookup_remove obj_path self)) in
  on_self (_lookup_add (Some dbus_obj) obj_path new_lvm_id new_uuid).

(** The loop of [GetManagedObjects] over [list(self._objects.items())]:
    [None] when [v[0].emit_data()] raises, which it does when the export
    raises and when [v[0]] is [None]. *)
Fixpoint collect_managed (items : list (string * entry)) (rc : gmap string prop_bag)
    : option (gmap string prop_bag) :=
  match items with
  | [] => Some rc
  | (k, v) :: rest =>
      match e_obj v with
      | Some o =>
          match emit_data o with
          | Some (path, props) => collect_managed rest (<[path := props]> rc)
          | None => None
          end
      | None => None
      end
  end.

Definition GetManagedObjects : M (gmap string prop_bag) :=
  let* self := get_self in
  match collect_managed (map_to_list (_objects self)) ∅ with
  | Some rc => ret rc
  | None => raise (SystemExit 1)
  end.

(** ** Sequences of calls *)

Inductive call : Type :=
  | Register (dbus_object : dbus_object) (emit_signal : bool)
  | Remove (dbus_object : dbus_object) (emit_signal : bool)
  | ResolveOrCreate (uuid lvm_id : option string)
      (path_create : option path_generator) (gen_new : bool)
  | Update (dbus_obj : dbus_object) (new_uuid new_lvm_id : option string).

Definition exec (c : call) : M unit :=
  match c with
  | Register o emit => register_object o emit
  | Remove o emit => remove_object o emit
  | ResolveOrCreate uuid lvm_id path_create gen_new =>
      do get_object_path_by_uuid_lvm_id uuid lvm_id path_create gen_new in ret tt
  | Update o new_uuid new_lvm_id => lookup_update o new_uuid new_lvm_id
  end.

(** The world after the calls, made one after the other; a call that
    raises leaves the world as it was when it raised, and the next is made
    there. *)
Fixpoint run (cs : list call) (w : world) : world :=
  match cs with
  | [] => w
  | c :: cs => run cs (exec c w).2
  end.

Definition returns (c : call) (w : world) : bool :=
  match (exec c w).1 with
  | Return _ => true
  | Raise _ => false
  end.

(** Every call of the sequence returns: none raises. *)
Fixpoint all_return (cs : list call) (w : world) : bool :=
  match cs with
  | [] => true
  | c :: cs => returns c w && all_return cs (exec c w).2
  end.

End Methods.

(** ** [object_paths_by_type] *)

Section ByType.

(** The classes that callers pass as [o_type], and Python's
    [isinstance(v[0], o_type)] on the first component of an entry, which is
    an object or [None]. *)
Variable o_type_class : Type.
Variable isinstance : option dbus_object → o_type_class → bool.

(** The loop of [object_paths_by_type] over [list(self._objects.items())]. *)
Fixpoint collect_by_type (items : list (string * entry)) (o_type : o_type_class)
    (rc : gmap string bool) : gmap string bool :=
  match items with
  | [] => rc
  | (k, v) :: rest =>
      collect_by_type rest o_type
        (if isinstance (e_obj v) o_type then <[k := true]> rc else rc)
  end.

Definition object_paths_by_type (o_type : o_type_class) (self : ObjectManager)
    : gmap string bool :=
  collect_by_type (map_to_list (_objects self)) o_type ∅.

End ByType.

(** ** The lock *)

(** What a step on the lock comes to: it returns, it waits for another
    thread, or it raises. *)
Inductive lock_outcome (A : Type) : Type :=
  | Done (a : A)
  | Blocks
  | RaisesAttributeError
  | RaisesRuntimeError.
Arguments Done {A} a.
Arguments Blocks {A}.
Arguments RaisesAttributeError {A}.
Arguments RaisesRuntimeError {A}.

(** [threading.RLock], of the Python library: the thread that owns the lock
    and its recursion level.  An unowned lock has level 0. *)
Record RLock : Type := {
  rl_owner : option nat;
  rl_level : nat
}.

(** [threading.RLock()] *)
Definition RLock_new : RLock := {| rl_owner := None; rl_level := 0 |}.

(** [lock.acquire()] by the thread [t]: the owner goes one level deeper, a
    free lock is taken at level 1, and a thread that is not the owner
    waits. *)
Definition acquire (t : nat) (l : RLock) : lock_outcome RLock :=
  match rl_owner l with
  | None => Done {| rl_owner := Some t; rl_level := 1 |}
  | Some t' =>
      if bool_decide (t' = t)
      then Done {| rl_owner := Some t; rl_level := S (rl_level l) |}
      else Blocks
  end.

(** [lock.release()] by the thread [t]: one level up, the lock is free at
    level 0; [RuntimeError] for a thread that does not own the lock. *)
Definition release (t : nat) (l : RLock) : lock_outcome RLock :=
  match rl_owner l with
  | Some t' =>
      if bool_decide (t' = t) then
        match rl_level l with
        | S (S n) => Done {| rl_owner := Some t; rl_level := S n |}
        | _ => Done {| rl_owner := None; rl_level := 0 |}
        end
      else RaisesRuntimeError
  | None => RaisesRuntimeError
  end.

(** The one lock of the object manager, [self.rlock], as the guards refer
    to it. *)
Inductive rlock_ref : Type := self_rlock.

(** [ObjectManagerLock]: [_lock] is the lock, or [None] once the guard was
    left. *)
Record ObjectManagerLock : Type := {
  _lock : option rlock_ref
}.

(** [ObjectManager.locked]: [ObjectManagerLock(self.rlock)] *)
Definition locked : ObjectManagerLock := {| _lock := Some self_rlock |}.

(** [ObjectManagerLock.__enter__], run by the thread [t], on the guard and
    the lock of the object manager. *)
Definition __enter__ (t : nat) (guard : ObjectManagerLock) (rlock : RLock)
    : lock_outcome (ObjectManagerLock * RLock) :=
  match _lock guard with
  | Some self_rlock =>
      match acquire t rlock with
      | Done rlock' => Done (guard, rlock')
      | Blocks => Blocks
      | RaisesAttributeError => RaisesAttributeError
      | RaisesRuntimeError => RaisesRuntimeError
      end
  | None => RaisesAttributeError (* [None] has no [acquire] *)
  end.

(** [ObjectManagerLock.__exit__]: release, then forget the lock. *)
Definition __exit__ (t : nat) (guard : ObjectManagerLock) (rlock : RLock)
    : lock_outcome (ObjectManagerLock * RLock) :=
  match _lock guard with
  | Some self_rlock =>
      match release t rlock with
      | Done rlock' => Done ({| _lock := None |}, rlock')
      | Blocks => Blocks
      | RaisesAttributeError => RaisesAttributeError
      | RaisesRuntimeError => RaisesRuntimeError
      end
  | None => RaisesAttributeError (* [None] has no [release] *)
  end.

(** The lock is free at level 0 or owned at a level of 1 or more. *)
Definition RLock_wf (l : RLock) : Prop :=
  match rl_owner l with
  | None => rl_level l = 0
  | Some _ => 0 < rl_level l
  end.

(** ** The properties *)

(** [k] is one of the two identifiers stored with the entry. *)
Definition has_id (e : entry) (k : string) : Prop :=
  e_lvm_id e = Some k ∨ e_uuid e = Some k.

#[global] Instance has_id_dec (e : entry) (k : string) : Decision (has_id e k).
Proof. unfold has_id. apply _. Defined.

(** I1: every entry has an identifier that is not empty. *)
Definition I1 (self : ObjectManager) : Prop :=
  ∀ p e, _objects self !! p = Some e →
    truthy (e_lvm_id e) || truthy (e_uuid e) = true.

(** I2: the paths of the entry table are pairwise different. *)
Definition I2 (self : ObjectManager) : Prop :=
  NoDup (map_to_list (_objects self)).*1.

(** I3: every path in the identifier index is the path of an entry, and
    an identifier string is in the index at most once. *)
Definition I3 (self : ObjectManager) : Prop :=
  (∀ k p, _id_to_object_path self !! k = Some p → is_Some (_objects self !! p))
  ∧ NoDup (map_to_list (_id_to_object_path self)).*1.

(** I4: an entry with two identifiers, both present and different, has
    both indexed to its path. *)
Definition I4 (self : ObjectManager) : Prop :=
  ∀ p e l u,
    _objects self !! p = Some e →
    e_lvm_id e = Some l → e_uuid e = Some u →
    l ≠ "" → u ≠ "" → l ≠ u →
    _id_to_object_path self !! l = Some p ∧ _id_to_object_path self !! u = Some p.

(** The index has non-empty keys only, and each is an identifier of the
    entry at the path it is indexed to. *)
Definition index_sound (self : ObjectManager) : Prop :=
  ∀ k p, _id_to_object_path self !! k = Some p →
    k ≠ "" ∧ ∃ e, _objects self !! p = Some e ∧ has_id e k.

(** Every non-empty identifier of every entry is indexed to the entry's
    path. *)
Definition index_complete (self : ObjectManager) : Prop :=
  ∀ p e k, _objects self !! p = Some e → has_id e k → k ≠ "" →
    _id_to_object_path self !! k = Some p.

Definition paths_nonempty (self : ObjectManager) : Prop :=
  ∀ p e, _objects self !! p = Some e → p ≠ "".

(** No identifier is indexed to the empty string: object paths are D-Bus
    object paths, which begin with a slash. *)
Definition index_paths_nonempty (self : ObjectManager) : Prop :=
  ∀ k, _id_to_object_path self !! k ≠ Some "".

(** An object is stored under its own object path. *)
Definition objects_at_own_path (self : ObjectManager) : Prop :=
  ∀ p e o, _objects self !! p = Some e → e_obj e = Some o → ap_o_path o = p.

(** The identifier [key], when it is one, is not indexed to another path
    than [path]. *)
Definition id_free (key : option string) (path : string) (self : ObjectManager) : bool :=
  match key with
  | Some k =>
      if str_truthy k then
        match _id_to_object_path self !! k with
        | Some q => bool_decide (q = path)
        | None => true
        end
      else true
  | None => true
  end.

(** The string has no slash. *)
Definition slash_free (s : string) : Prop := ∀ a b, s ≠ a +:+ "/" +:+ b.

(** The [lvm_id] that [get_object_path_by_uuid_lvm_id] goes on with, once
    it has replaced the ['[unknown]'] of a missing PV by [None]. *)
Definition settled_lvm_id (path_create : option path_generator) (lvm_id : string)
    : option string :=
  if bool_decide (path_create = Some pv_obj_path_generate ∧ lvm_id = "[unknown]")
  then None else Some lvm_id.

(** The property bag that the entry's object exports, when it has an object
    and the export does not raise. *)
Definition exported (e : entry) : option prop_bag :=
  match e_obj e with
  | Some o => export_props o
  | None => None
  end.

Section CallConditions.

Variable realpath : string → string.
Variable mint : path_generator → list path_generator → string.

(** The call brings no identifier that the index has for another path,
    and no empty object path. *)
Definition clash_free (c : call) (w : world) : bool :=
  match c with
  | Register o _ =>
      str_truthy (ap_o_path o)
      && id_free (lvm_id o) (ap_o_path o) (om w)
      && id_free (Uuid o) (ap_o_path o) (om w)
  | Remove _ _ => true
  | ResolveOrCreate _ _ path_create _ =>
      match path_create with
      | Some gen => str_truthy (mint gen (generated w))
      | None => true
      end
  | Update o new_uuid new_lvm_id =>
      str_truthy (ap_o_path o)
      && id_free new_lvm_id (ap_o_path o) (om w)
      && id_free new_uuid (ap_o_path o) (om w)
  end.

Fixpoint all_clash_free (cs : list call) (w : world) : bool :=
  match cs with
  | [] => true
  | c :: cs => clash_free c w && all_clash_free cs (exec realpath mint c w).2
  end.

End CallConditions.

(** ** Example data *)

(** A file system without symbolic links, asked about canonical paths. *)
Definition ex_realpath (path : string) : string := path.

(** Generators that number the paths of each kind from 0. *)
Definition ex_mint (gen : path_generator) (before : list path_generator) : string :=
  match gen with
  | pv_obj_path_generate => "/com/redhat/lvmdbus1/Pv/"
  | other_obj_path_generate name => "/com/redhat/lvmdbus1/" +:+ name +:+ "/"
  end +:+ pretty (length (filter (λ g, g = gen) before)).

Definition ex_lv_generate : path_generator := other_obj_path_generate "Lv".

Definition ex_lv0 : dbus_object :=
  {| ap_o_path := "/o1";
     lvm_id := Some "vg0/lv0";
     Uuid := Some "u1";
     interface := ["com.redhat.lvmdbus1.Lv"];
     export_props := Some [("com.redhat.lvmdbus1.Lv", [("Name", "lv0")])] |}.

(** Another object under the name of [ex_lv0]. *)
Definition ex_lv0_twin : dbus_object :=
  {| ap_o_path := "/o2";
     lvm_id := Some "vg0/lv0";
     Uuid := Some "u2";
     interface := ["com.redhat.lvmdbus1.Lv"];
     export_props := Some [("com.redhat.lvmdbus1.Lv", [("Name", "lv0")])] |}.

(** A hidden logical volume. *)
Definition ex_hidden : dbus_object :=
  {| ap_o_path := "/o3";
     lvm_id := Some "vg0/[lv0_rimage_0]";
     Uuid := Some "u3";
     interface := ["com.redhat.lvmdbus1.Lv"];
     export_props := Some [("com.redhat.lvmdbus1.Lv", [("Name", "[lv0_rimage_0]")])] |}.

(** The registry after [register_object(ex_lv0)]. *)
Definition ex_world_lv0 : world :=
  run ex_realpath ex_mint [Register ex_lv0 false] world_init.

(** The registry after [register_object(ex_hidden)]. *)
Definition ex_world_hidden : world :=
  run ex_realpath ex_mint [Register ex_hidden false] world_init.

(** Two objects registered under one name. *)
Definition ex_calls_twins : list call :=
  [Register ex_lv0 false; Register ex_lv0_twin false].

(** A registration, a path created ahead of its object, a rename. *)
Definition ex_calls : list call :=
  [Register ex_lv0 true;
   ResolveOrCreate (Some "u2") (Some "vg0/lv1") (Some ex_lv_generate) true;
   Update ex_lv0 (Some "u1") (Some "vg0/lv9")].

(** An object with neither an lvm_id nor a Uuid. *)
Definition ex_nameless : dbus_object :=
  {| ap_o_path := "/o4";
     lvm_id := None;
     Uuid := Some "";
     interface := ["com.redhat.lvmdbus1.Lv"];
     export_props := Some [] |}.

(** The object for the first path of [ex_lv_generate]. *)
Definition ex_lv1 : dbus_object :=
  {| ap_o_path := "/com/redhat/lvmdbus1/Lv/0";
     lvm_id := Some "vg0/lv1";
     Uuid := Some "u2";
     interface := ["com.redhat.lvmdbus1.Lv"];
     export_props := Some [("com.redhat.lvmdbus1.Lv", [("Name", "lv1")])] |}.

(** ** The two dictionaries after [_lookup_remove] and [_lookup_add] *)

Lemma str_truthy_ne (s : string) : str_truthy s = true ↔ s ≠ "".
Proof. destruct s; simpl; split; congruence. Qed.

Lemma truthy_Some (x : option string) :
  truthy x = true ↔ ∃ s, x = Some s ∧ s ≠ "".
Proof.
  destruct x as [s|]; simpl.
  - rewrite str_truthy_ne. split; [eauto | intros (? & [= ->] & ?); done].
  - split; [done | intros (? & ? & ?); done].
Qed.

Lemma key_in_true {V} (key : option string) (d : gmap string V) :
  key_in key d = true ↔ ∃ k, key = Some k ∧ is_Some (d !! k).
Proof.
  destruct key as [k|]; simpl.
  - rewrite bool_decide_eq_true. split; [eauto | intros (? & [= ->] & ?); done].
  - split; [done | intros (? & ? & ?); done].
Qed.

Lemma lookup_del_if_in {V} (key : option string) (d : gmap string V) (k : string) :
  del_if_in key d !! k = if bool_decide (key = Some k) then None else d !! k.
Proof.
  unfold del_if_in. destruct key as [k'|]; [|by rewrite bool_decide_eq_false_2].
  destruct (decide (k' = k)) as [->|Hne].
  - rewrite bool_decide_eq_true_2 by done.
    destruct (key_in (Some k) d) eqn:Hin; [apply lookup_delete_eq|].
    simpl in Hin. apply bool_decide_eq_false in Hin. by apply eq_None_not_Some.
  - rewrite bool_decide_eq_false_2 by congruence.
    destruct (key_in (Some k') d); [by rewrite lookup_delete_ne|done].
Qed.

Lemma lookup_set_if_truthy (key : option string) (path : string)
    (d : gmap string string) (k : string) :
  set_if_truthy key path d !! k
  = if bool_decide (key = Some k ∧ k ≠ "") then Some path else d !! k.
Proof.
  unfold set_if_truthy. destruct key as [k'|]; [|by rewrite bool_decide_eq_false_2; [|intros [? ?]]].
  simpl. destruct (str_truthy k') eqn:Ht.
  - apply str_truthy_ne in Ht. case_bool_decide as Hk.
    + destruct Hk as [[= ->] _]. apply lookup_insert_eq.
    + rewrite lookup_insert_ne; [done|]. intros ->. by apply Hk.
  - rewrite bool_decide_eq_false_2; [done|]. intros [[= ->] Hne].
    apply str_truthy_ne in Hne. congruence.
Qed.

Lemma _lookup_remove_objects (p : string) (self : ObjectManager) :
  _objects (_lookup_remove p self) = delete p (_objects self).
Proof.
  unfold _lookup_remove. destruct (_objects self !! p) eqn:E; [done|].
  by rewrite delete_id.
Qed.

Lemma _lookup_remove_index (p : string) (self : ObjectManager) (k : string) :
  _id_to_object_path (_lookup_remove p self) !! k
  = match _objects self !! p with
    | Some e => if bool_decide (has_id e k) then None
                else _id_to_object_path self !! k
    | None => _id_to_object_path self !! k
    end.
Proof.
  unfold _lookup_remove. destruct (_objects self !! p) as [e|]; [|done].
  simpl. rewrite !lookup_del_if_in. unfold has_id.
  rewrite !bool_decide_decide; repeat (destruct (decide _)); try done; intuition congruence.
Qed.

Lemma _lookup_add_outcome (obj : option dbus_object) (p : string)
    (l u : option string) (self : ObjectManager) :
  (_lookup_add obj p l u self).1
  = if truthy l || truthy u then Return tt else Raise AssertionError.
Proof. unfold _lookup_add. by destruct (truthy l || truthy u). Qed.

Lemma _lookup_add_objects (obj : option dbus_object) (p : string)
    (l u : option string) (self : ObjectManager) :
  _objects (_lookup_add obj p l u self).2
  = <[p := {| e_obj := obj; e_lvm_id := l; e_uuid := u |}]> (_objects self).
Proof.
  unfold _lookup_add.
  destruct (truthy l || truthy u); simpl;
    by rewrite _lookup_remove_objects, insert_delete_eq.
Qed.

Lemma _lookup_add_index (obj : option dbus_object) (p : string)
    (l u : option string) (self : ObjectManager) (k : string) :
  _id_to_object_path (_lookup_add obj p l u self).2 !! k
  = if bool_decide ((l = Some k ∨ u = Some k) ∧ k ≠ "") then Some p
    else _id_to_object_path (_lookup_remove p self) !! k.
Proof.
  unfold _lookup_add. destruct (truthy l || truthy u) eqn:Ht; simpl.
  - rewrite !lookup_set_if_truthy. rewrite !bool_decide_decide; repeat (destruct (decide _)); try done; intuition congruence.
  - apply orb_false_elim in Ht as [Hl Hu].
    rewrite bool_decide_eq_false_2; [done|].
    intros [[-> | ->] Hk]; simpl in *; apply str_truthy_ne in Hk; congruence.
Qed.

Lemma id_free_spec key path self :
  id_free key path self = true ↔
  ∀ k, key = Some k → k ≠ "" →
    _id_to_object_path self !! k = None ∨ _id_to_object_path self !! k = Some path.
Proof.
  unfold id_free. destruct key as [k|]; [|by split].
  destruct (str_truthy k) eqn:Ht.
  - apply str_truthy_ne in Ht.
    destruct (_id_to_object_path self !! k) as [q|] eqn:E.
    + rewrite bool_decide_eq_true. split.
      * intros -> k' [= <-] _. rewrite E. by right.
      * intros H. destruct (H k eq_refl Ht) as [?|?]; congruence.
    + split; [|done]. intros _ k' [= <-] _. rewrite E. by left.
  - split; [|done]. intros _ k' [= <-] Hne. apply str_truthy_ne in Hne. congruence.
Qed.

(** ** [_lookup_remove] and [_lookup_add] keep the invariants *)

Section Preservation.

Context (self : ObjectManager) (p : string).

Lemma _lookup_remove_sound :
  index_sound self → index_sound (_lookup_remove p self).
Proof.
  intros Hs k q. rewrite _lookup_remove_index, _lookup_remove_objects.
  destruct (_objects self !! p) as [e|] eqn:Ep.
  - case_bool_decide as Hid; [done|]. intros Hk.
    destruct (Hs k q Hk) as (Hne & e' & Eq & Hid'). split; [done|].
    exists e'. split; [|done].
    rewrite lookup_delete_ne; [done|]. intros ->. congruence.
  - intros Hk. destruct (Hs k q Hk) as (Hne & e' & Eq & Hid'). split; [done|].
    exists e'. split; [|done].
    rewrite lookup_delete_ne; [done|]. intros ->. congruence.
Qed.

Lemma _lookup_remove_absent (k q : string) :
  index_sound self →
  _id_to_object_path (_lookup_remove p self) !! k = Some q → q ≠ p.
Proof.
  intros Hs Hk ->. apply _lookup_remove_sound in Hs.
  destruct (Hs k p Hk) as (_ & e & E & _).
  by rewrite _lookup_remove_objects, lookup_delete_eq in E.
Qed.

Lemma _lookup_remove_complete :
  index_complete self → index_complete (_lookup_remove p self).
Proof.
  intros Hc q e k. rewrite _lookup_remove_index, _lookup_remove_objects.
  intros Eq Hid Hne. apply lookup_delete_Some in Eq as [Hpq Eq].
  pose proof (Hc q e k Eq Hid Hne) as Hk.
  destruct (_objects self !! p) as [e'|] eqn:Ep; [|done].
  case_bool_decide as Hid'; [|done].
  pose proof (Hc p e' k Ep Hid' Hne). congruence.
Qed.

Lemma _lookup_remove_I1 : I1 self → I1 (_lookup_remove p self).
Proof.
  intros H q e. rewrite _lookup_remove_objects.
  intros [_ Eq]%lookup_delete_Some. by apply (H q).
Qed.

Lemma _lookup_remove_paths_nonempty :
  paths_nonempty self → paths_nonempty (_lookup_remove p self).
Proof.
  intros H q e. rewrite _lookup_remove_objects.
  intros [_ Eq]%lookup_delete_Some. by apply (H q e).
Qed.

Lemma _lookup_remove_own_path :
  objects_at_own_path self → objects_at_own_path (_lookup_remove p self).
Proof.
  intros H q e o. rewrite _lookup_remove_objects.
  intros [_ Eq]%lookup_delete_Some. by apply (H q e).
Qed.

Context (obj : option dbus_object) (l u : option string).

Lemma _lookup_add_sound :
  index_sound self → index_sound (_lookup_add obj p l u self).2.
Proof.
  intros Hs k q. rewrite _lookup_add_index, _lookup_add_objects.
  case_bool_decide as Hk.
  - intros [= <-]. destruct Hk as [Hk Hne]. split; [done|].
    eexists. rewrite lookup_insert_eq. split; [done|]. exact Hk.
  - intros Hq. pose proof (_lookup_remove_absent k q Hs Hq) as Hqp.
    apply _lookup_remove_sound in Hs.
    destruct (Hs k q Hq) as (Hne & e & E & Hid). split; [done|].
    exists e. split; [|done].
    rewrite lookup_insert_ne by done.
    rewrite _lookup_remove_objects in E.
    by apply lookup_delete_Some in E as [_ E].
Qed.

Lemma _lookup_add_complete :
  index_complete self →
  id_free l p self = true → id_free u p self = true →
  index_complete (_lookup_add obj p l u self).2.
Proof.
  intros Hc Hl Hu q e k. rewrite _lookup_add_index, _lookup_add_objects.
  rewrite id_free_spec in Hl, Hu.
  intros Eq Hid Hne. apply lookup_insert_Some in Eq as [[<- <-]|[Hpq Eq]].
  - rewrite bool_decide_eq_true_2; [done|]. split; [exact Hid|done].
  - pose proof (Hc q e k Eq Hid Hne) as Hk.
    case_bool_decide as Hnew.
    + destruct Hnew as [[Hk'|Hk'] _];
        [destruct (Hl k Hk' Hne)|destruct (Hu k Hk' Hne)]; congruence.
    + apply (_lookup_remove_complete Hc q e k); [|done..].
      rewrite _lookup_remove_objects. by apply lookup_delete_Some.
Qed.

Lemma _lookup_add_I1 :
  I1 self → (_lookup_add obj p l u self).1 = Return tt →
  I1 (_lookup_add obj p l u self).2.
Proof.
  intros H Hr q e. rewrite _lookup_add_objects.
  rewrite _lookup_add_outcome in Hr.
  intros [[<- <-]|[_ Eq]]%lookup_insert_Some; [|by apply (H q)].
  simpl. by destruct (truthy l || truthy u).
Qed.

Lemma _lookup_add_paths_nonempty :
  paths_nonempty self → p ≠ "" →
  paths_nonempty (_lookup_add obj p l u self).2.
Proof.
  intros H Hp q e. rewrite _lookup_add_objects.
  intros [[<- <-]|[_ Eq]]%lookup_insert_Some; [done|by apply (H q e)].
Qed.

Lemma _lookup_add_own_path :
  objects_at_own_path self → (∀ o, obj = Some o → ap_o_path o = p) →
  objects_at_own_path (_lookup_add obj p l u self).2.
Proof.
  intros H Hp q e o. rewrite _lookup_add_objects.
  intros [[<- <-]|[_ Eq]]%lookup_insert_Some; [by apply Hp|by apply (H q e)].
Qed.

End Preservation.

(** ** Strings *)

#[local] Arguments String.append !_ _ /.

Lemma contains_slash_false (s : string) :
  contains_slash s = false ↔ slash_free s.
Proof.
  unfold slash_free. induction s as [|c s IH]; simpl.
  - split; [|done]. intros _ [|? ?] b; simpl; congruence.
  - destruct (Ascii.eqb_spec c "/") as [->|Hc].
    + split; [done|]. intros H. by destruct (H "" s).
    + rewrite IH. split.
      * intros H [|c' a] b; simpl; [congruence|].
        intros [= <- ->]. by apply (H a b).
      * intros H a b ->. by apply (H (String c a) b).
Qed.

Lemma contains_slash_app (a b : string) :
  contains_slash (a +:+ "/" +:+ b) = true.
Proof.
  destruct (contains_slash (a +:+ "/" +:+ b)) eqn:E; [done|].
  apply contains_slash_false in E. by destruct (E a b).
Qed.

Lemma split_slash_1_app (a b : string) :
  slash_free a → split_slash_1 (a +:+ "/" +:+ b) = [a; b].
Proof.
  induction a as [|c a IH]; intros Ha; simpl in *; [done|].
  destruct (Ascii.eqb_spec c "/") as [->|Hc].
  - by destruct (Ha "" a).
  - rewrite IH; [done|]. intros x y ->. by apply (Ha (String c x) y).
Qed.

Lemma split_slash_1_exists (s : string) :
  contains_slash s = true →
  ∃ a b, s = a +:+ "/" +:+ b ∧ slash_free a.
Proof.
  induction s as [|c s IH]; simpl; [done|].
  destruct (Ascii.eqb_spec c "/") as [->|Hc].
  - intros _. exists "", s. split; [done|].
    intros [|? ?] ?; simpl; congruence.
  - intros (a & b & -> & Ha)%IH. exists (String c a), b. split; [done|].
    intros [|c' x] y; simpl; [congruence|].
    intros [= <- ->]. by apply (Ha x y).
Qed.

Lemma startswith_slash_app (a b : string) :
  startswith_slash (a +:+ "/" +:+ b) = bool_decide (a = "") || startswith_slash a.
Proof. by destruct a. Qed.

(** ** [_id_lookup] *)

Section Lookup.

Variable realpath : string → string.

Lemma _id_lookup_direct (self : ObjectManager) (k p : string) :
  k ≠ "" → _id_to_object_path self !! k = Some p →
  _id_lookup realpath (Some k) self = Some p.
Proof.
  intros Hk E. unfold _id_lookup. simpl.
  apply str_truthy_ne in Hk. by rewrite Hk, E.
Qed.

Lemma _id_lookup_falsy_key (key : option string) (self : ObjectManager) :
  truthy key = false → _id_lookup realpath key self = None.
Proof. unfold _id_lookup. destruct key; [|done]. by intros ->. Qed.

(** A path that [_id_lookup] returns is a value of the index, and the
    identifier itself is indexed to that path or not indexed. *)
Lemma _id_lookup_Some (key : option string) (self : ObjectManager) (p : string) :
  _id_lookup realpath key self = Some p →
  ∃ k, key = Some k ∧ k ≠ "" ∧
    (_id_to_object_path self !! k = Some p ∨
     _id_to_object_path self !! k = None ∧
     ∃ k', _id_to_object_path self !! k' = Some p).
Proof.
  unfold _id_lookup. destruct key as [k|]; [|done].
  destruct (truthy (Some k)) eqn:Ht; [|done].
  simpl in Ht. apply str_truthy_ne in Ht.
  intros H. exists k. split; [done|]. split; [done|].
  destruct (_id_to_object_path self !! k) as [q|] eqn:E; [left; congruence|].
  right. split; [done|].
  destruct (contains_slash k); [|done].
  destruct (startswith_slash k); [eauto|].
  destruct (split_slash_1 k) as [|vg [|lv [|? ?]]]; try done. eauto.
Qed.

(** When [_id_lookup] finds no usable path, the identifier is not
    indexed, or is indexed to the empty path. *)
Lemma _id_lookup_not_truthy (k : string) (self : ObjectManager) :
  k ≠ "" → truthy (_id_lookup realpath (Some k) self) = false →
  _id_to_object_path self !! k = None ∨ _id_to_object_path self !! k = Some "".
Proof.
  intros Hk%str_truthy_ne. unfold _id_lookup. simpl. rewrite Hk.
  destruct (_id_to_object_path self !! k) as [q|] eqn:E; [|by left].
  simpl. destruct q; [by right|done].
Qed.

(** C7.  For a non-empty identifier, [_id_lookup] returns the path the
    index has for it; when the index has none: for [container/child], with
    no slash in a non-empty [container] (the split at the first slash of an
    identifier that does not start with one), what the index has for
    [container/[child]]; for an identifier that starts with a slash, what
    the index has for its canonical form; for one without a slash, [None].
    Every identifier is of one of these three shapes. *)
Theorem id_lookup_fallbacks (self : ObjectManager) (the_id : string) :
  the_id ≠ "" →
  let idx := _id_to_object_path self in
  (∀ path, idx !! the_id = Some path →
     _id_lookup realpath (Some the_id) self = Some path) ∧
  (idx !! the_id = None →
     ∀ container child,
       the_id = container +:+ "/" +:+ child →
       slash_free container → container ≠ "" →
       _id_lookup realpath (Some the_id) self
       = idx !! (container +:+ "/[" +:+ child +:+ "]")) ∧
  (idx !! the_id = None →
     ∀ rest, the_id = "/" +:+ rest →
       _id_lookup realpath (Some the_id) self = idx !! realpath the_id) ∧
  (idx !! the_id = None → slash_free the_id →
     _id_lookup realpath (Some the_id) self = None) ∧
  (slash_free the_id
   ∨ (∃ rest, the_id = "/" +:+ rest)
   ∨ (∃ container child,
        the_id = container +:+ "/" +:+ child ∧
        slash_free container ∧ container ≠ "")).
Proof.
  intros Hne idx. pose proof Hne as Ht%str_truthy_ne.
  split; [|split; [|split; [|split]]].
  - intros path E. by apply _id_lookup_direct.
  - intros E container child Heq Hfree Hc.
    unfold _id_lookup. simpl truthy. fold idx. rewrite Ht, E.
    assert (contains_slash the_id = true) as ->
      by (rewrite Heq; apply contains_slash_app).
    assert (startswith_slash the_id = false) as ->.
    { rewrite Heq, startswith_slash_app.
      rewrite bool_decide_eq_false_2 by done.
      destruct container as [|c r]; [done|]. simpl.
      destruct (Ascii.eqb_spec c "/") as [->|]; [|done].
      by destruct (Hfree "" r). }
    assert (split_slash_1 the_id = [container; child]) as ->
      by (rewrite Heq; by apply split_slash_1_app).
    unfold int_lvm_id_of. simpl. done.
  - intros E rest Heq. unfold _id_lookup. simpl truthy. fold idx.
    rewrite Ht, E.
    assert (contains_slash the_id = true) as -> by (by rewrite Heq).
    assert (startswith_slash the_id = true) as -> by (by rewrite Heq).
    done.
  - intros E Hfree%contains_slash_false.
    unfold _id_lookup. simpl truthy. fold idx. by rewrite Ht, E, Hfree.
  - destruct (contains_slash the_id) eqn:Hs.
    + right. apply split_slash_1_exists in Hs as (a & b & -> & Ha).
      destruct a as [|c a]; [left; by exists b|].
      right. exists (String c a), b. by repeat split.
    + left. by apply contains_slash_false.
Qed.

End Lookup.

(** ** [get_object_path_by_uuid_lvm_id], [register_object], [remove_object] *)

Lemma set_om_same (w : world) : set_om w (om w) = w.
Proof. by destruct w. Qed.

Section Resolve.

Variable realpath : string → string.
Variable mint : path_generator → list path_generator → string.

Abbreviation _id_lookup := (_id_lookup realpath).
Abbreviation lookup_verify_create := (lookup_verify_create realpath mint).
Abbreviation get_object_path_by_uuid_lvm_id :=
  (get_object_path_by_uuid_lvm_id realpath mint).

Lemma truthy_path_Some (path : option string) :
  truthy path = true ↔ ∃ p, path = Some p ∧ p ≠ "".
Proof. apply truthy_Some. Qed.

(** A lookup that found a non-empty path passes [if path:]. *)
Lemma found_not_falsy (key : option string) (self : ObjectManager) (q : string) :
  _id_lookup key self = Some q → q ≠ "" →
  truthy (_id_lookup key self) = false → False.
Proof.
  intros E Hq Ht. rewrite E in Ht. simpl in Ht.
  apply str_truthy_ne in Hq. congruence.
Qed.

(** [_lookup_add] with a non-empty uuid passes its assertion. *)
Lemma _lookup_add_returns (obj : option dbus_object) (p : string)
    (l : option string) (u : string) (self : ObjectManager) :
  u ≠ "" → (_lookup_add obj p l (Some u) self).1 = Return ().
Proof.
  intros Hu%str_truthy_ne. rewrite _lookup_add_outcome. simpl.
  by rewrite Hu, orb_true_r.
Qed.

(** What [lookup_verify_create] does, by the outcome of its lookups. *)
Lemma lookup_verify_create_cases (u : string) (l : option string)
    (pc : option path_generator) (g : bool) (w : world) :
  u ≠ "" → l ≠ Some u →
  let self := om w in
  let idx := _id_to_object_path self in
  let res := lookup_verify_create (Some u) l pc g w in
  (∃ p, _id_lookup (Some u) self = Some p ∧ p ≠ "" ∧
     ((truthy l = false ∨ key_in l idx = true) ∧ res = (Return (Some p), w) ∨
      (truthy l = true ∧ key_in l idx = false ∧
       res = (Return (Some p),
              set_om w (_lookup_add (get_object_by_path p self) p l (Some u) self).2))))
  ∨ (truthy (_id_lookup (Some u) self) = false ∧
     ∃ p, _id_lookup l self = Some p ∧ p ≠ "" ∧
       (key_in (Some u) idx = true ∧ res = (Return (Some p), w) ∨
        key_in (Some u) idx = false ∧
        res = (Return (Some p),
               set_om w (_lookup_add (get_object_by_path p self) p l (Some u) self).2)))
  ∨ (truthy (_id_lookup (Some u) self) = false ∧
     truthy (_id_lookup l self) = false ∧
     (g = false ∧ res = (Return (_id_lookup l self), w) ∨
      g = true ∧ pc = None ∧ res = (Raise TypeError, w) ∨
      g = true ∧ ∃ gen, pc = Some gen ∧
        res = (Return (Some (mint gen (generated w))),
               {| om := (_lookup_add None (mint gen (generated w)) l (Some u) self).2;
                  generated := generated w ++ [gen];
                  bus := bus w |}))).
Proof.
  intros Hu Hl self idx res. subst res.
  pose proof Hu as Htu%str_truthy_ne.
  unfold lookup_verify_create, bind, get_self. fold self.
  destruct (truthy (_id_lookup (Some u) self)) eqn:Hpu.
  - left. apply truthy_path_Some in Hpu as (p & Ep & Hp). rewrite Ep.
    exists p. split; [done|]. split; [done|].
    unfold on_self, ret, _lvm_id_verify. fold self idx.
    rewrite bool_decide_eq_true_2 by done.
    destruct (truthy l) eqn:Htl; simpl.
    + destruct (key_in l idx) eqn:Hin; simpl.
      * left. split; [by right|]. by rewrite set_om_same.
      * right. split; [done|]. split; [done|].
        by rewrite _lookup_add_returns.
    + left. split; [by left|]. by rewrite set_om_same.
  - right. destruct (truthy (_id_lookup l self)) eqn:Hpl.
    + left. split; [done|].
      apply truthy_path_Some in Hpl as (p & Ep & Hp). rewrite Ep.
      exists p. split; [done|]. split; [done|].
      unfold on_self, ret, _uuid_verify. fold self idx.
      rewrite bool_decide_eq_true_2 by done.
      change (truthy (Some u)) with (str_truthy u). rewrite Htu.
      destruct (key_in (Some u) idx) eqn:Hin; simpl.
      * left. split; [done|]. by rewrite set_om_same.
      * right. split; [done|].
        by rewrite _lookup_add_returns.
    + right. split; [done|]. split; [done|].
      destruct g; [|by left]. right.
      destruct pc as [gen|]; [right|by left].
      split; [done|]. exists gen. split; [done|].
      unfold call_path_create, on_self, ret. simpl.
      by rewrite _lookup_add_returns.
Qed.

(** With two different identifiers, [get_object_path_by_uuid_lvm_id]
    passes its assertions and goes on with the settled [lvm_id]. *)
Lemma get_object_path_distinct (u d : string) (pc : option path_generator)
    (g : bool) (w : world) :
  u ≠ "" → d ≠ "" → u ≠ d → (g = true → is_Some pc) →
  get_object_path_by_uuid_lvm_id (Some u) (Some d) pc g w
  = lookup_verify_create (Some u) (settled_lvm_id pc d) pc g w.
Proof.
  intros Hu%str_truthy_ne Hd%str_truthy_ne Hud Hpc.
  unfold get_object_path_by_uuid_lvm_id, bind, assert_, ret.
  change (truthy (Some d)) with (str_truthy d).
  change (truthy (Some u)) with (str_truthy u).
  rewrite Hu, Hd.
  rewrite (bool_decide_eq_true_2 (Some u ≠ Some d)) by congruence.
  rewrite (bool_decide_eq_false_2 (Some u = Some d)) by congruence.
  assert (settled_lvm_id pc d
          = if bool_decide (pc = Some pv_obj_path_generate)
               && bool_decide (Some d = Some "[unknown]")
            then None else Some d) as <-.
  { unfold settled_lvm_id. rewrite !bool_decide_decide; repeat (destruct (decide _)); simpl; try done; intuition congruence. }
  destruct g; [|done].
  rewrite bool_decide_eq_true_2 by auto. done.
Qed.

Lemma _id_lookup_nonempty (key : option string) (self : ObjectManager) (p : string) :
  index_paths_nonempty self → _id_lookup key self = Some p → p ≠ "".
Proof.
  intros Hne H. apply _id_lookup_Some in H as (k & _ & _ & [E|[_ [k' E]]]);
    intros ->; by eapply Hne.
Qed.

Lemma _id_lookup_None_not_truthy (key : option string) (self : ObjectManager) :
  _id_lookup key self = None → truthy (_id_lookup key self) = false.
Proof. by intros ->. Qed.

Lemma _id_lookup_Some_truthy (key : option string) (self : ObjectManager) (p : string) :
  p ≠ "" → _id_lookup key self = Some p → truthy (_id_lookup key self) = true.
Proof. intros Hp ->. simpl. by apply str_truthy_ne. Qed.

Lemma settled_lvm_id_ne (pc : option path_generator) (u d : string) :
  u ≠ d → settled_lvm_id pc d ≠ Some u.
Proof. unfold settled_lvm_id. case_bool_decide; congruence. Qed.

Lemma settled_lvm_id_Some (pc : option path_generator) (d k : string) :
  settled_lvm_id pc d = Some k → k = d.
Proof. unfold settled_lvm_id. case_bool_decide; congruence. Qed.

(** C2 (amended).  For two non-empty, different identifiers, over an index
    that holds no empty path: a path found by the uuid is returned;
    otherwise a path found by the settled lvm_id is returned; otherwise,
    with [gen_new], the generator is called once, the entry
    [(None, lvm_id, uuid)] is stored at the new path and returned, the uuid
    is indexed to it, and so is the lvm_id, unless it was the ['[unknown]']
    of a missing PV, which is then not added to the index; without
    [gen_new], [None] is returned and nothing changes. *)
Theorem resolve_or_create_steps (u d : string) (pc : option path_generator)
    (g : bool) (w : world) :
  u ≠ "" → d ≠ "" → u ≠ d → (g = true → is_Some pc) →
  index_paths_nonempty (om w) →
  let self := om w in
  let lvm_id := settled_lvm_id pc d in
  let res := get_object_path_by_uuid_lvm_id (Some u) (Some d) pc g w in
  (∀ p, _id_lookup (Some u) self = Some p → res.1 = Return (Some p)) ∧
  (∀ p, _id_lookup (Some u) self = None → _id_lookup lvm_id self = Some p →
     res.1 = Return (Some p)) ∧
  (_id_lookup (Some u) self = None → _id_lookup lvm_id self = None → g = true →
     ∃ gen, pc = Some gen ∧
       let p := mint gen (generated w) in
       res.1 = Return (Some p) ∧
       generated res.2 = generated w ++ [gen] ∧
       _objects (om res.2)
       = <[p := {| e_obj := None; e_lvm_id := lvm_id; e_uuid := Some u |}]>
           (_objects self) ∧
       _id_to_object_path (om res.2) !! u = Some p ∧
       (∀ k, lvm_id = Some k → _id_to_object_path (om res.2) !! k = Some p) ∧
       (lvm_id = None → _id_to_object_path self !! d = None →
        _id_to_object_path (om res.2) !! d = None)) ∧
  (_id_lookup (Some u) self = None → _id_lookup lvm_id self = None → g = false →
     res = (Return None, w)).
Proof.
  intros Hu Hd Hud Hpc Hne self lvm_id res. subst res.
  rewrite get_object_path_distinct by done. fold lvm_id.
  pose proof (settled_lvm_id_ne pc u d Hud) as Hl. fold lvm_id in Hl.
  pose proof (lookup_verify_create_cases u lvm_id pc g w Hu Hl) as Hcases.
  cbv zeta in Hcases. fold self in Hcases.
  destruct Hcases as
    [(p & Ep & Hp & [[_ ->]|(_ & _ & ->)])
    |[(Hfu & p & Ep & Hp & [[_ ->]|[_ ->]])
     |(Hfu & Hfl & [[-> ->]|[(-> & -> & _)|(-> & gen & -> & ->)]])]].
  - repeat split; intros; simpl; congruence.
  - repeat split; intros; simpl; congruence.
  - assert (_id_lookup (Some u) self = None) as Eu.
    { destruct (_id_lookup (Some u) self) as [q|] eqn:E; [|done].
      apply (_id_lookup_Some_truthy _ _ q) in E as Ht; [congruence|].
      by eapply _id_lookup_nonempty. }
    repeat split; intros; simpl; congruence.
  - assert (_id_lookup (Some u) self = None) as Eu.
    { destruct (_id_lookup (Some u) self) as [q|] eqn:E; [|done].
      apply (_id_lookup_Some_truthy _ _ q) in E as Ht; [congruence|].
      by eapply _id_lookup_nonempty. }
    repeat split; intros; simpl; congruence.
  - split; [|split; [|split]].
    + intros p E. apply (_id_lookup_Some_truthy _ _ p) in E as Ht; [congruence|].
      by eapply _id_lookup_nonempty.
    + intros p _ E. apply (_id_lookup_Some_truthy _ _ p) in E as Ht; [congruence|].
      by eapply _id_lookup_nonempty.
    + done.
    + intros _ -> _. done.
  - destruct (Hpc eq_refl) as [? [=]].
  - split; [|split; [|split]].
    + intros p E. apply (_id_lookup_Some_truthy _ _ p) in E as Ht; [congruence|].
      by eapply _id_lookup_nonempty.
    + intros p _ E. apply (_id_lookup_Some_truthy _ _ p) in E as Ht; [congruence|].
      by eapply _id_lookup_nonempty.
    + intros Eu El _. exists gen. split; [done|]. cbv zeta. simpl.
      split; [done|]. split; [done|]. split; [apply _lookup_add_objects|].
      split; [|split].
      * rewrite _lookup_add_index. rewrite bool_decide_eq_true_2; [done|]. auto.
      * intros k Ek. rewrite _lookup_add_index.
        rewrite bool_decide_eq_true_2; [done|]. split; [by left|].
        apply settled_lvm_id_Some in Ek. by subst.
      * intros El' Ed. rewrite _lookup_add_index.
        rewrite bool_decide_eq_false_2.
        2:{ intros [[?|[= ?]] _]; congruence. }
        rewrite _lookup_remove_index.
        destruct (_objects self !! mint gen (generated w)); [|done].
        by case_bool_decide.
    + done.
Qed.



(** The two identifiers of a call that found [p] are free for [p]. *)
Lemma _id_lookup_id_free (key : option string) (self : ObjectManager) (p : string) :
  _id_lookup key self = Some p → id_free key p self = true.
Proof.
  intros H. apply _id_lookup_Some in H as (k & -> & Hk & [E|[E _]]);
    apply id_free_spec; intros k' [= <-] _; auto.
Qed.

Lemma key_in_false_id_free (key : option string) (self : ObjectManager) (p : string) :
  key_in key (_id_to_object_path self) = false → id_free key p self = true.
Proof.
  intros H. apply id_free_spec. intros k -> _. left.
  simpl in H. apply bool_decide_eq_false in H. by apply eq_None_not_Some.
Qed.


(** A call whose uuid is indexed, and whose lvm_id is indexed too or is
    [None], returns the indexed path and changes nothing. *)
Lemma lookup_verify_create_settled (u : string) (l : option string)
    (pc : option path_generator) (g : bool) (w : world) (p : string) :
  u ≠ "" → p ≠ "" → l ≠ Some u →
  _id_to_object_path (om w) !! u = Some p →
  (∀ k, l = Some k → is_Some (_id_to_object_path (om w) !! k)) →
  lookup_verify_create (Some u) l pc g w = (Return (Some p), w).
Proof.
  intros Hu Hp Hl Eu Hk.
  pose proof (_id_lookup_direct realpath (om w) u p Hu Eu) as Ep.
  pose proof (_id_lookup_Some_truthy _ _ _ Hp Ep) as Ht.
  destruct (lookup_verify_create_cases u l pc g w Hu Hl) as
    [(p' & Ep' & _ & [[_ ->]|(Htl & Hin & _)])|[(Hfu & _)|(Hfu & _)]];
    try congruence.
  apply truthy_Some in Htl as (k & -> & _).
  simpl in Hin. apply bool_decide_eq_false in Hin. destruct Hin. by apply Hk.
Qed.


(** After [_lookup_add] with a uuid, both identifiers are settled. *)
Lemma lookup_verify_create_after_add (u : string) (l : option string)
    (pc : option path_generator) (g : bool) (w : world)
    (obj : option dbus_object) (p : string) (self : ObjectManager) :
  u ≠ "" → p ≠ "" → l ≠ Some u → l ≠ Some "" →
  om w = (_lookup_add obj p l (Some u) self).2 →
  lookup_verify_create (Some u) l pc g w = (Return (Some p), w).
Proof.
  intros Hu Hp Hl Hlne Hom.
  apply lookup_verify_create_settled; [done..| |].
  - rewrite Hom, _lookup_add_index. rewrite bool_decide_eq_true_2; auto.
  - intros k ->. rewrite Hom, _lookup_add_index.
    rewrite bool_decide_eq_true_2; [done|]. split; [auto|congruence].
Qed.


Lemma send_om (ev : bus_event) (w : world) : om (send ev w).2 = om w.
Proof. done. Qed.

(** A call with the lvm_id [None] itself fails [assert lvm_id]: to go on
    with [None] is what lines 299-314 do after the ['[unknown]'] of a
    missing PV was replaced. *)
Lemma get_object_path_lvm_id_None (uuid : option string)
    (pc : option path_generator) (g : bool) (w : world) :
  get_object_path_by_uuid_lvm_id uuid None pc g w = (Raise AssertionError, w).
Proof. done. Qed.

(** C6.  With [pv_obj_path_generate] and the lvm_id ['[unknown]'], a call
    with a non-empty uuid other than ['[unknown]'] is the lookup, verify
    and create of lines 299-314 run with the lvm_id [None]: a path found by
    the uuid is returned with nothing changed; otherwise [None] is
    returned with nothing changed, or with [gen_new] the entry
    [(None, None, uuid)] is stored at the generated path; and the call
    adds no index entry for ['[unknown]']. *)
Theorem unknown_pv_lvm_id (u : string) (g : bool) (w : world) :
  u ≠ "" → u ≠ "[unknown]" →
  let self := om w in
  let res := get_object_path_by_uuid_lvm_id (Some u) (Some "[unknown]")
               (Some pv_obj_path_generate) g w in
  res = lookup_verify_create (Some u) None (Some pv_obj_path_generate) g w ∧
  (∀ p, _id_lookup (Some u) self = Some p → p ≠ "" →
     res = (Return (Some p), w)) ∧
  (truthy (_id_lookup (Some u) self) = false → g = false →
     res = (Return None, w)) ∧
  (truthy (_id_lookup (Some u) self) = false → g = true →
     let p := mint pv_obj_path_generate (generated w) in
     res.1 = Return (Some p) ∧
     generated res.2 = generated w ++ [pv_obj_path_generate] ∧
     _objects (om res.2)
     = <[p := {| e_obj := None; e_lvm_id := None; e_uuid := Some u |}]>
         (_objects self)) ∧
  (_id_to_object_path self !! "[unknown]" = None →
   _id_to_object_path (om res.2) !! "[unknown]" = None).
Proof.
  intros Hu Hun self res. subst res.
  rewrite get_object_path_distinct by (done || eauto).
  assert (settled_lvm_id (Some pv_obj_path_generate) "[unknown]" = None) as ->.
  { unfold settled_lvm_id. by rewrite bool_decide_eq_true_2. }
  split; [done|].
  pose proof (found_not_falsy (Some u) self) as Hcontra.
  destruct (lookup_verify_create_cases u None (Some pv_obj_path_generate) g w Hu)
    as [(p & Ep & Hp & [[_ E1]|([=] & _)])
       |[(_ & p & [=] & _)
        |(Hfu & _ & [[-> E1]|[(_ & [=] & _)|(-> & gen & [= <-] & E1)]])]];
    [done|..]; fold self in Ep || fold self in Hfu; rewrite E1.
  - split; [intros; congruence|].
    split; [intros Ht; by destruct (Hcontra p)|].
    split; [intros Ht; by destruct (Hcontra p)|done].
  - split; [intros q E Hq; by destruct (Hcontra q)|].
    split; [done|]. split; [done|done].
  - split; [intros q E Hq; by destruct (Hcontra q)|].
    split; [done|]. cbn [fst snd om generated].
    split; [intros _ _; split; [done|]; split; [done|]; apply _lookup_add_objects|].
    intros E. rewrite _lookup_add_index.
    rewrite bool_decide_eq_false_2 by (intros [[[=]|[=]] _]; congruence).
    rewrite _lookup_remove_index. fold self.
    destruct (_objects self !! mint pv_obj_path_generate (generated w)); [|done].
    by case_bool_decide.
Qed.

(** C10.  When neither identifier is found and the path [p] is created,
    the entry at [p] holds [None] for its object, [get_object_by_path p]
    returns [None], and the uuid is indexed to [p] and found by
    [_id_lookup].  [get_object_by_path] returns [None] exactly for the
    paths that are not registered and for the paths whose entry holds
    [None]. *)
Theorem placeholder_has_no_object (u d : string) (pc : option path_generator)
    (w : world) (gen : path_generator) :
  u ≠ "" → d ≠ "" → u ≠ d → pc = Some gen →
  truthy (_id_lookup (Some u) (om w)) = false →
  truthy (_id_lookup (settled_lvm_id pc d) (om w)) = false →
  let res := get_object_path_by_uuid_lvm_id (Some u) (Some d) pc true w in
  let p := mint gen (generated w) in
  res.1 = Return (Some p) ∧
  _objects (om res.2) !! p
  = Some {| e_obj := None; e_lvm_id := settled_lvm_id pc d; e_uuid := Some u |} ∧
  get_object_by_path p (om res.2) = None ∧
  _id_to_object_path (om res.2) !! u = Some p ∧
  (p ≠ "" → _id_lookup (Some u) (om res.2) = Some p) ∧
  (∀ self q, get_object_by_path q self = None ↔
     _objects self !! q = None
     ∨ ∃ e, _objects self !! q = Some e ∧ e_obj e = None).
Proof.
  intros Hu Hd Hud -> Hfu Hfl res p. subst res.
  rewrite get_object_path_distinct by (done || eauto).
  pose proof (settled_lvm_id_ne (Some gen) u d Hud) as Hl.
  destruct (lookup_verify_create_cases u (settled_lvm_id (Some gen) d)
              (Some gen) true w Hu Hl)
    as [(q & Eq & Hq & _)
       |[(_ & q & Eq & Hq & _)
        |(_ & _ & [[[=] _]|[(_ & [=] & _)|(_ & gen' & [= <-] & E1)]])]].
  - rewrite Eq in Hfu. simpl in Hfu. apply str_truthy_ne in Hq. congruence.
  - rewrite Eq in Hfl. simpl in Hfl. apply str_truthy_ne in Hq. congruence.
  - rewrite E1. cbn [fst snd om]. fold p.
    assert (_id_to_object_path
              (_lookup_add None p (settled_lvm_id (Some gen) d) (Some u) (om w)).2
            !! u = Some p) as Eu.
    { rewrite _lookup_add_index. rewrite bool_decide_eq_true_2; auto. }
    split; [done|]. split; [|split; [|split; [|split]]].
    + by rewrite _lookup_add_objects, lookup_insert_eq.
    + unfold get_object_by_path.
      by rewrite _lookup_add_objects, lookup_insert_eq.
    + done.
    + intros Hp. by apply _id_lookup_direct.
    + intros self q. unfold get_object_by_path.
      destruct (_objects self !! q) as [e|]; [|by split; auto].
      split; [eauto|]. by intros [[=]|(e' & [= <-] & ?)].
Qed.

(** With one identifier given twice the call is a lookup. *)
Lemma get_object_path_same_ids (x : option string) (pc : option path_generator)
    (g : bool) (w : world) :
  let res := get_object_path_by_uuid_lvm_id x x pc g w in
  res.2 = w ∧
  (res.1 = Raise AssertionError ∨ res.1 = Return (_id_lookup x (om w))) ∧
  (truthy x = true → g = false → res.1 = Return (_id_lookup x (om w))) ∧
  (g = true → res.1 = Raise AssertionError).
Proof.
  unfold get_object_path_by_uuid_lvm_id, bind, assert_, ret, raise, get_self.
  destruct (truthy x) eqn:Ht; simpl;
    [|by repeat split; auto; intros; congruence].
  rewrite (bool_decide_eq_true_2 (x = x)) by done.
  rewrite (bool_decide_eq_false_2 (x ≠ x)) by auto.
  destruct g; simpl; [destruct (bool_decide (is_Some pc))|]; simpl;
    repeat split; auto; intros; congruence.
Qed.

(** C5.  A call of [get_object_path_by_uuid_lvm_id] with the uuid equal to
    the lvm_id leaves the world as it was, registry included; it fails an
    assertion or returns what [_id_lookup] finds for the identifier, and
    it returns that when the identifier is not empty and [gen_new] is
    off. *)
Theorem identity_query_pure (uuid lvm_id : option string)
    (pc : option path_generator) (g : bool) (w : world) :
  uuid = lvm_id →
  let res := get_object_path_by_uuid_lvm_id uuid lvm_id pc g w in
  res.2 = w ∧
  (res.1 = Raise AssertionError ∨ res.1 = Return (_id_lookup lvm_id (om w))) ∧
  (truthy lvm_id = true → g = false → res.1 = Return (_id_lookup lvm_id (om w))).
Proof.
  intros ->. cbv zeta.
  destruct (get_object_path_same_ids lvm_id pc g w) as (? & ? & ? & _). auto.
Qed.

Lemma register_object_om (h : dbus_object) (emit : bool) (w : world) :
  is_Some (export_props h) →
  let added := _lookup_add (Some h) (ap_o_path h) (lvm_id h) (Uuid h) (om w) in
  om (register_object h emit w).2 = added.2 ∧
  (register_object h emit w).1 = added.1.
Proof.
  intros [props Hprops]. unfold register_object, emit_data. rewrite Hprops.
  unfold bind, on_self. cbn [fst snd].
  destruct (_lookup_add (Some h) (ap_o_path h) (lvm_id h) (Uuid h) (om w))
    as [[[]|e] self']; cbn [fst snd]; [|done].
  by destruct emit.
Qed.

Lemma register_object_raises (h : dbus_object) (emit : bool) (w : world) :
  export_props h = None → register_object h emit w = (Raise ExportError, w).
Proof. intros H. unfold register_object, emit_data. by rewrite H. Qed.

Lemma remove_object_om (h : dbus_object) (emit : bool) (w : world) :
  om (remove_object h emit w).2 = _lookup_remove (ap_o_path h) (om w) ∧
  (remove_object h emit w).1 = Return ().
Proof. unfold remove_object, bind, on_self. simpl. by destruct emit. Qed.

Lemma _lookup_remove_idemp (p : string) (self : ObjectManager) :
  _lookup_remove p (_lookup_remove p self) = _lookup_remove p self.
Proof.
  unfold _lookup_remove at 1.
  by rewrite _lookup_remove_objects, lookup_delete_eq.
Qed.

Lemma lookup_update_om (h : dbus_object) (new_uuid new_lvm_id : option string)
    (w : world) :
  let added := _lookup_add (Some h) (ap_o_path h) new_lvm_id new_uuid (om w) in
  om (lookup_update h new_uuid new_lvm_id w).2 = added.2 ∧
  (lookup_update h new_uuid new_lvm_id w).1 = added.1.
Proof.
  unfold lookup_update, bind, on_self, dbus_object_path. cbn [fst snd set_om om].
  unfold _lookup_add. rewrite _lookup_remove_idemp.
  by destruct (truthy new_lvm_id || truthy new_uuid).
Qed.

(** C8.  For an object whose export does not raise: after
    [register_object] the object is what [get_object_by_path] returns for
    its path, the entry table holds its entry at that path in place of any
    entry that was there, and the index holds its non-empty identifiers
    for that path, has lost the other identifiers of the entry that was
    there, and is unchanged elsewhere.  After [remove_object],
    [get_object_by_path] returns [None] for the path, and the entry and the
    index entries of its identifiers are gone. *)
Theorem register_remove_get (h : dbus_object) (emit : bool) (w : world) :
  is_Some (export_props h) →
  let self := om w in
  let path := dbus_object_path h in
  let registered := om (register_object h emit w).2 in
  let removed := om (remove_object h emit w).2 in
  get_object_by_path path registered = Some h ∧
  _objects registered
  = <[path := {| e_obj := Some h; e_lvm_id := lvm_id h; e_uuid := Uuid h |}]>
      (_objects self) ∧
  (∀ k, _id_to_object_path registered !! k
        = if bool_decide ((lvm_id h = Some k ∨ Uuid h = Some k) ∧ k ≠ "")
          then Some path
          else match _objects self !! path with
               | Some old => if bool_decide (has_id old k) then None
                             else _id_to_object_path self !! k
               | None => _id_to_object_path self !! k
               end) ∧
  get_object_by_path path removed = None ∧
  _objects removed = delete path (_objects self) ∧
  (∀ k, _id_to_object_path removed !! k
        = match _objects self !! path with
          | Some old => if bool_decide (has_id old k) then None
                        else _id_to_object_path self !! k
          | None => _id_to_object_path self !! k
          end).
Proof.
  intros Hexp self path registered removed.
  assert (registered
          = (_lookup_add (Some h) path (lvm_id h) (Uuid h) self).2) as ->
    by apply (register_object_om h emit w Hexp).
  assert (removed = _lookup_remove path self) as ->
    by apply remove_object_om.
  split; [|split; [|split; [|split; [|split]]]].
  - unfold get_object_by_path. by rewrite _lookup_add_objects, lookup_insert_eq.
  - apply _lookup_add_objects.
  - intros k. by rewrite _lookup_add_index, _lookup_remove_index.
  - unfold get_object_by_path. by rewrite _lookup_remove_objects, lookup_delete_eq.
  - apply _lookup_remove_objects.
  - intros k. apply _lookup_remove_index.
Qed.

End Resolve.

(** ** [GetManagedObjects] *)

Section Managed.

Lemma collect_managed_None (items : list (string * entry))
    (rc : gmap string prop_bag) :
  (∃ k e, (k, e) ∈ items ∧ exported e = None) →
  collect_managed items rc = None.
Proof.
  revert rc. induction items as [|[k v] items IH]; intros rc (k' & e & Hin & He).
  - by apply elem_of_nil in Hin.
  - simpl. unfold emit_data.
    destruct (e_obj v) as [o|] eqn:Ev; [|done].
    destruct (export_props o) as [props|] eqn:Eo; [|done].
    apply IH. apply elem_of_cons in Hin as [[= -> ->]|Hin]; [|eauto].
    unfold exported in He. rewrite Ev in He. congruence.
Qed.

Lemma collect_managed_Some (items : list (string * entry))
    (rc : gmap string prop_bag) :
  NoDup items.*1 →
  (∀ k e, (k, e) ∈ items →
     is_Some (exported e) ∧ ∀ o, e_obj e = Some o → ap_o_path o = k) →
  ∃ rc', collect_managed items rc = Some rc' ∧
    ∀ p, rc' !! p = match (list_to_map items : gmap string entry) !! p with
                    | Some e => exported e
                    | None => rc !! p
                    end.
Proof.
  revert rc. induction items as [|[k v] items IH]; intros rc Hnd Hok.
  - exists rc. split; [done|]. intros p. simpl. by rewrite lookup_empty.
  - apply NoDup_cons in Hnd as [Hk Hnd].
    destruct (Hok k v) as [[props Hv] Hpath]; [by left|].
    simpl. unfold emit_data. unfold exported in Hv.
    destruct (e_obj v) as [o|] eqn:Ev; [|done].
    rewrite Hv, (Hpath o eq_refl).
    destruct (IH (<[k := props]> rc) Hnd) as (rc' & -> & Hrc').
    { intros k' e Hin. apply Hok. by right. }
    exists rc'. split; [done|]. intros p. rewrite Hrc'.
    change (list_to_map ((k, v) :: items) : gmap string entry)
      with (<[k := v]> (list_to_map items : gmap string entry)).
    destruct (decide (k = p)) as [->|Hne].
    + rewrite (not_elem_of_list_to_map_1 _ p Hk).
      rewrite !lookup_insert_eq. unfold exported. by rewrite Ev.
    + by rewrite !lookup_insert_ne.
Qed.

(** C9.  In a registry that stores objects under their own paths,
    [GetManagedObjects] visits the entries of the table, each path once;
    it changes nothing; when every entry has an object whose export does
    not raise, it returns the dictionary of each path's exported property
    bag, with exactly the paths of the table; when some entry has no
    object, or one whose export raises, it raises [SystemExit(1)]. *)
Theorem GetManagedObjects_all_or_exit (w : world) :
  objects_at_own_path (om w) →
  let objs := _objects (om w) in
  let visited := map_to_list objs in
  let res := GetManagedObjects w in
  (NoDup visited.*1 ∧ ∀ p e, (p, e) ∈ visited ↔ objs !! p = Some e) ∧
  res.2 = w ∧
  ((∀ p e, objs !! p = Some e → is_Some (exported e)) →
   res.1 = Return (omap exported objs) ∧ dom (omap exported objs) = dom objs) ∧
  ((∃ p e, objs !! p = Some e ∧ exported e = None) →
   res.1 = Raise (SystemExit 1)).
Proof.
  intros Hown objs visited res.
  split; [split; [apply NoDup_fst_map_to_list|]|].
  { intros p e. apply elem_of_map_to_list. }
  assert (res.2 = w) as Hw.
  { subst res. unfold GetManagedObjects, bind, get_self. cbn [fst snd].
    fold objs. by destruct (collect_managed (map_to_list objs) ∅). }
  split; [done|]. split.
  - intros Hok.
    destruct (collect_managed_Some visited ∅) as (rc & Hrc & Hlook).
    { apply NoDup_fst_map_to_list. }
    { intros k e Hin%elem_of_map_to_list. split; [by eapply Hok|].
      intros o. by apply (Hown k e o). }
    assert (rc = omap exported objs) as ->.
    { apply map_eq. intros p. rewrite Hlook, lookup_omap.
      subst visited. rewrite list_to_map_to_list.
      by destruct (objs !! p). }
    split.
    + subst res. unfold GetManagedObjects, bind, get_self. cbn [fst snd].
      fold objs visited. by rewrite Hrc.
    + apply set_eq. intros p. rewrite !elem_of_dom, lookup_omap.
      destruct (objs !! p) as [e|] eqn:E; simpl.
      * split; [eauto|]. intros _. by eapply Hok.
      * split; intros [? ?]; done.
  - intros (p & e & E & He).
    subst res. unfold GetManagedObjects, bind, get_self. cbn [fst snd].
    fold objs. rewrite collect_managed_None; [done|].
    exists p, e. split; [|done]. by apply elem_of_map_to_list.
Qed.

End Managed.

(** ** Sequences of calls keep the invariants *)

Section Calls.

Variable realpath : string → string.
Variable mint : path_generator → list path_generator → string.

Abbreviation clash_free := (clash_free mint).
Abbreviation all_clash_free := (all_clash_free realpath mint).
Abbreviation _id_lookup := (_id_lookup realpath).
Abbreviation lookup_verify_create := (lookup_verify_create realpath mint).
Abbreviation get_object_path_by_uuid_lvm_id :=
  (get_object_path_by_uuid_lvm_id realpath mint).
Abbreviation exec := (exec realpath mint).
Abbreviation run := (run realpath mint).
Abbreviation returns := (returns realpath mint).
Abbreviation all_return := (all_return realpath mint).

Lemma get_object_path_om_cases (uo lo : option string)
    (pc : option path_generator) (g : bool) (w : world) :
  let res := get_object_path_by_uuid_lvm_id uo lo pc g w in
  om res.2 = om w
  ∨ ∃ u d, u ≠ "" ∧ d ≠ "" ∧ u ≠ d ∧
      res = lookup_verify_create (Some u) (settled_lvm_id pc d) pc g w.
Proof.
  intros res.
  destruct (decide (uo = lo)) as [->|Hne].
  { left. subst res. by rewrite (proj1 (get_object_path_same_ids realpath mint lo pc g w)). }
  destruct (truthy uo) eqn:Htu.
  2:{ left. subst res.
      unfold get_object_path_by_uuid_lvm_id, bind, assert_, raise, ret.
      rewrite Htu. by destruct (truthy lo). }
  destruct (truthy lo) eqn:Htl.
  2:{ left. subst res.
      unfold get_object_path_by_uuid_lvm_id, bind, assert_, raise, ret.
      by rewrite Htl. }
  apply truthy_Some in Htu as (u & -> & Hu).
  apply truthy_Some in Htl as (d & -> & Hd).
  assert (u ≠ d) as Hud by congruence.
  destruct (decide (g = true → is_Some pc)) as [Hpc|Hpc].
  - right. exists u, d. split; [done|]. split; [done|]. split; [done|].
    by apply get_object_path_distinct.
  - left. destruct g; [|by destruct Hpc]. destruct pc; [by destruct Hpc|].
    subst res.
    unfold get_object_path_by_uuid_lvm_id, bind, assert_, raise, ret.
    apply str_truthy_ne in Hu, Hd. simpl. by rewrite Hu, Hd.
Qed.

Lemma index_paths_nonempty_of (self : ObjectManager) :
  index_sound self → paths_nonempty self → index_paths_nonempty self.
Proof.
  intros Hs Hp k E. apply Hs in E as (_ & e & E & _). by apply Hp in E.
Qed.

Lemma id_free_not_truthy (k : string) (self : ObjectManager) (p : string) :
  index_paths_nonempty self → k ≠ "" →
  truthy (_id_lookup (Some k) self) = false →
  id_free (Some k) p self = true.
Proof.
  intros Hne Hk Ht. apply id_free_spec. intros k' [= <-] _.
  destruct (_id_lookup_not_truthy realpath k self Hk Ht) as [?|E]; [by left|].
  by apply Hne in E.
Qed.

(** What a call does to the registry: nothing, a [_lookup_remove], or a
    [_lookup_add]. *)
Lemma exec_om_cases (c : call) (w : world) :
  let self := om w in
  let self' := om (exec c w).2 in
  self' = self
  ∨ (∃ p, self' = _lookup_remove p self)
  ∨ (∃ obj p l u,
       self' = (_lookup_add obj p l u self).2 ∧
       (returns c w = true → (_lookup_add obj p l u self).1 = Return ()) ∧
       (obj = get_object_by_path p self ∨ ∀ o, obj = Some o → ap_o_path o = p) ∧
       (clash_free c w = true → index_paths_nonempty self →
        p ≠ "" ∧ id_free l p self = true ∧ id_free u p self = true)).
Proof.
  intros self self'. subst self'. destruct c as [o emit|o emit|uo lo pc g|o nu nl].
  - simpl. destruct (export_props o) as [props|] eqn:Eo.
    + right. right.
      destruct (register_object_om o emit w) as [Hom Hout]; [by eauto|].
      exists (Some o), (ap_o_path o), (lvm_id o), (Uuid o).
      split; [done|]. split; [|split].
      * unfold returns.
        change (exec (Register o emit) w) with (register_object o emit w).
        rewrite Hout. by destruct (_lookup_add _ _ _ _ _).1 as [[]|].
      * right. by intros ? [= <-].
      * simpl. intros [[Hp ?]%andb_prop ?]%andb_prop _.
        by apply str_truthy_ne in Hp.
    + left. by rewrite register_object_raises.
  - right. left. exists (ap_o_path o). apply remove_object_om.
  - assert (om (exec (ResolveOrCreate uo lo pc g) w).2
            = om (get_object_path_by_uuid_lvm_id uo lo pc g w).2) as ->.
    { simpl. unfold bind, ret.
      by destruct (get_object_path_by_uuid_lvm_id _ _ _ _ _)
        as [[?|?] ?]. }
    destruct (get_object_path_om_cases uo lo pc g w)
      as [?|(u & d & Hu & Hd & Hud & ->)]; [by left|].
    pose proof (settled_lvm_id_ne pc u d Hud) as Hl.
    destruct (lookup_verify_create_cases realpath mint u (settled_lvm_id pc d)
                pc g w Hu Hl)
      as [(p & Ep & Hp & [[_ ->]|(Htl & Hin & ->)])
         |[(Hfu & p & Ep & Hp & [[_ ->]|[Hin ->]])
          |(Hfu & Hfl & [[_ ->]|[(_ & _ & ->)|(_ & gen & -> & ->)]])]];
      try (by left); right; right.
    + exists (get_object_by_path p self), p, (settled_lvm_id pc d), (Some u).
      split; [done|]. split; [|split; [by left|]].
      * intros _. by apply _lookup_add_returns.
      * intros _ _. split; [done|]. split.
        -- by apply key_in_false_id_free.
        -- by apply (_id_lookup_id_free realpath).
    + exists (get_object_by_path p self), p, (settled_lvm_id pc d), (Some u).
      split; [done|]. split; [|split; [by left|]].
      * intros _. by apply _lookup_add_returns.
      * intros _ _. split; [done|]. split.
        -- by apply (_id_lookup_id_free realpath).
        -- by apply key_in_false_id_free.
    + exists None, (mint gen (generated w)), (settled_lvm_id (Some gen) d), (Some u).
      split; [done|]. split; [|split; [by right|]].
      * intros _. by apply _lookup_add_returns.
      * simpl. intros Hq%str_truthy_ne Hne. split; [done|]. split.
        -- unfold settled_lvm_id in *. case_bool_decide; [done|].
           by apply id_free_not_truthy.
        -- by apply id_free_not_truthy.
  - right. right. destruct (lookup_update_om o nu nl w) as [Hom Hout].
    exists (Some o), (ap_o_path o), nl, nu.
    split; [done|]. split; [|split].
    + unfold returns.
      change (exec (Update o nu nl) w) with (lookup_update o nu nl w).
      rewrite Hout. by destruct (_lookup_add _ _ _ _ _).1 as [[]|].
    + right. by intros ? [= <-].
    + simpl. intros [[Hp ?]%andb_prop ?]%andb_prop _.
      by apply str_truthy_ne in Hp.
Qed.

Lemma exec_index_sound (c : call) (w : world) :
  index_sound (om w) → index_sound (om (exec c w).2).
Proof.
  intros Hs. destruct (exec_om_cases c w)
    as [->|[[p ->]|(obj & p & l & u & -> & _)]]; [done|..].
  - by apply _lookup_remove_sound.
  - by apply _lookup_add_sound.
Qed.

Lemma exec_objects_at_own_path (c : call) (w : world) :
  objects_at_own_path (om w) → objects_at_own_path (om (exec c w).2).
Proof.
  intros Ho. destruct (exec_om_cases c w)
    as [->|[[p ->]|(obj & p & l & u & -> & _ & Hobj & _)]]; [done|..].
  - by apply _lookup_remove_own_path.
  - apply _lookup_add_own_path; [done|].
    destruct Hobj as [->|Hobj]; [|done].
    intros o. unfold get_object_by_path.
    destruct (_objects (om w) !! p) as [e|] eqn:E; [|done].
    by apply (Ho p e o).
Qed.

Lemma exec_I1 (c : call) (w : world) :
  returns c w = true → I1 (om w) → I1 (om (exec c w).2).
Proof.
  intros Hr H1. destruct (exec_om_cases c w)
    as [->|[[p ->]|(obj & p & l & u & -> & Hout & _)]]; [done|..].
  - by apply _lookup_remove_I1.
  - apply _lookup_add_I1; auto.
Qed.

Lemma exec_index_complete (c : call) (w : world) :
  clash_free c w = true →
  index_sound (om w) → paths_nonempty (om w) → index_complete (om w) →
  paths_nonempty (om (exec c w).2) ∧ index_complete (om (exec c w).2).
Proof.
  intros Hcf Hs Hp Hc. destruct (exec_om_cases c w)
    as [->|[[p ->]|(obj & p & l & u & -> & _ & _ & Hfree)]]; [done|..].
  - split; [by apply _lookup_remove_paths_nonempty
           |by apply _lookup_remove_complete].
  - destruct Hfree as (? & ? & ?); [done|by apply index_paths_nonempty_of|].
    split; [by apply _lookup_add_paths_nonempty|by apply _lookup_add_complete].
Qed.

Lemma run_index_sound (cs : list call) (w : world) :
  index_sound (om w) → index_sound (om (run cs w)).
Proof.
  revert w. induction cs as [|c cs IH]; intros w Hs; [done|].
  simpl. apply IH. by apply exec_index_sound.
Qed.

Lemma run_objects_at_own_path (cs : list call) (w : world) :
  objects_at_own_path (om w) → objects_at_own_path (om (run cs w)).
Proof.
  revert w. induction cs as [|c cs IH]; intros w Hs; [done|].
  simpl. apply IH. by apply exec_objects_at_own_path.
Qed.

Lemma run_I1 (cs : list call) (w : world) :
  all_return cs w = true → I1 (om w) → I1 (om (run cs w)).
Proof.
  revert w. induction cs as [|c cs IH]; intros w Hr H1; [done|].
  simpl in *. apply andb_prop in Hr as [Hc Hr].
  apply IH; [done|]. by apply exec_I1.
Qed.

Lemma run_index_complete (cs : list call) (w : world) :
  all_clash_free cs w = true →
  index_sound (om w) → paths_nonempty (om w) → index_complete (om w) →
  index_complete (om (run cs w)).
Proof.
  revert w. induction cs as [|c cs IH]; intros w Hcf Hs Hp Hc; [done|].
  simpl in *. apply andb_prop in Hcf as [Hcf1 Hcf].
  destruct (exec_index_complete c w) as [? ?]; [done..|].
  apply IH; [done| |done..]. by apply exec_index_sound.
Qed.

Lemma index_complete_I4 (self : ObjectManager) : index_complete self → I4 self.
Proof.
  intros Hc p e l u E El Eu Hl Hu _.
  split; apply (Hc p e); unfold has_id; auto.
Qed.

Lemma index_sound_I3 (self : ObjectManager) : index_sound self → I3 self.
Proof.
  intros Hs. split; [|apply NoDup_fst_map_to_list].
  intros k p E. apply Hs in E as (_ & e & -> & _). eauto.
Qed.

Lemma om_init_invariants :
  index_sound om_init ∧ index_complete om_init ∧ paths_nonempty om_init
  ∧ objects_at_own_path om_init ∧ I1 om_init.
Proof.
  split; [|split; [|split; [|split]]].
  - intros k p E. simpl in E. by rewrite lookup_empty in E.
  - intros p e k E. simpl in E. by rewrite lookup_empty in E.
  - intros p e E. simpl in E. by rewrite lookup_empty in E.
  - intros p e o E. simpl in E. by rewrite lookup_empty in E.
  - intros p e E. simpl in E. by rewrite lookup_empty in E.
Qed.

(** C1 (amended).  After every sequence of [register_object],
    [remove_object], [get_object_path_by_uuid_lvm_id] and [lookup_update]
    calls made on the empty registry: I2 and I3 hold; I1 holds when every
    call of the sequence returned; I4 holds when no call brought an
    identifier that the index had for another path, nor an empty object
    path. *)
Theorem invariants_after_calls (cs : list call) :
  let self := om (run cs world_init) in
  (all_return cs world_init = true → I1 self) ∧
  I2 self ∧
  I3 self ∧
  (all_clash_free cs world_init = true → I4 self).
Proof.
  destruct om_init_invariants as (Hs & Hc & Hp & Ho & H1).
  intros self. split; [|split; [|split]].
  - intros Hr. by apply run_I1.
  - apply NoDup_fst_map_to_list.
  - apply index_sound_I3. by apply run_index_sound.
  - intros Hcf. apply index_complete_I4. by apply run_index_complete.
Qed.

End Calls.

(** ** More on the methods *)

Section MoreMethods.

Variable realpath : string → string.
Variable mint : path_generator → list path_generator → string.

Abbreviation _id_lookup := (_id_lookup realpath).
Abbreviation lookup_verify_create := (lookup_verify_create realpath mint).
Abbreviation get_object_path_by_uuid_lvm_id :=
  (get_object_path_by_uuid_lvm_id realpath mint).
Abbreviation get_object_by_uuid_lvm_id := (get_object_by_uuid_lvm_id realpath mint).
Abbreviation run := (run realpath mint).

(** What [register_object] sends and returns, once the export went
    well. *)
Lemma register_object_world (h : dbus_object) (emit : bool) (w : world)
    (props : prop_bag) :
  export_props h = Some props →
  let added := _lookup_add (Some h) (ap_o_path h) (lvm_id h) (Uuid h) (om w) in
  register_object h emit w
  = (added.1,
     {| om := added.2;
        generated := generated w;
        bus := match added.1 with
               | Return _ =>
                   if emit then bus w ++ [InterfacesAdded (ap_o_path h) props]
                   else bus w
               | Raise _ => bus w
               end |}).
Proof.
  intros Hprops. unfold register_object, emit_data. rewrite Hprops.
  unfold bind, on_self, set_om. cbn [fst snd].
  destruct (_lookup_add (Some h) (ap_o_path h) (lvm_id h) (Uuid h) (om w))
    as [[[]|e] self']; cbn [fst snd]; [|done].
  by destruct emit.
Qed.

(** X1.  After [register_object] of an object whose export does not
    raise, each non-empty identifier of the object, its lvm_id or its Uuid,
    is looked up to the object and to its path, by
    [get_object_by_lvm_id], [get_object_path_by_lvm_id] and [_id_lookup];
    the call returns, and it sends [InterfacesAdded] with the path and the
    exported properties when [emit_signal] is set, and nothing
    otherwise. *)
Theorem register_then_lookup (h : dbus_object) (emit : bool) (w : world)
    (props : prop_bag) (k : string) :
  export_props h = Some props →
  k ≠ "" → lvm_id h = Some k ∨ Uuid h = Some k →
  let res := register_object h emit w in
  let path := dbus_object_path h in
  res.1 = Return () ∧
  get_object_path_by_lvm_id k (om res.2) = path ∧
  get_object_by_lvm_id k (om res.2) = Some h ∧
  _id_lookup (Some k) (om res.2) = Some path ∧
  generated res.2 = generated w ∧
  bus res.2 = (if emit then bus w ++ [InterfacesAdded path props] else bus w).
Proof.
  intros Hprops Hk Hid res path. subst res.
  rewrite (register_object_world h emit w props Hprops). cbn [fst snd om bus generated].
  assert ((_lookup_add (Some h) (ap_o_path h) (lvm_id h) (Uuid h) (om w)).1
          = Return ()) as Hret.
  { rewrite _lookup_add_outcome.
    assert (truthy (lvm_id h) || truthy (Uuid h) = true) as ->; [|done].
    apply orb_true_iff.
    destruct Hid as [E|E]; [left|right]; rewrite E; by apply str_truthy_ne. }
  assert (_id_to_object_path
            (_lookup_add (Some h) (ap_o_path h) (lvm_id h) (Uuid h) (om w)).2 !! k
          = Some path) as Hidx.
  { rewrite _lookup_add_index. by rewrite bool_decide_eq_true_2. }
  rewrite Hret. split; [done|].
  unfold get_object_path_by_lvm_id, get_object_by_lvm_id. rewrite Hidx.
  split; [done|]. split; [|split; [|done]].
  - unfold get_object_by_path. rewrite _lookup_add_objects.
    subst path. unfold dbus_object_path. by rewrite lookup_insert_eq.
  - by apply _id_lookup_direct.
Qed.

Lemma ObjectManager_eq (a b : ObjectManager) :
  _objects a = _objects b → _id_to_object_path a = _id_to_object_path b → a = b.
Proof. destruct a, b. simpl. by intros -> ->. Qed.

(** X2.  [register_object] followed by [remove_object] of the same object
    leaves the registry as it was before, when the path was not registered
    and the identifiers of the object were not indexed; also when the
    registration failed its assertion. *)
Theorem register_then_remove (h : dbus_object) (emit emit' : bool) (w : world) :
  is_Some (export_props h) →
  _objects (om w) !! dbus_object_path h = None →
  key_in (lvm_id h) (_id_to_object_path (om w)) = false →
  key_in (Uuid h) (_id_to_object_path (om w)) = false →
  om (remove_object h emit' (register_object h emit w).2).2 = om w.
Proof.
  intros Hexp Hnone Hl Hu. unfold dbus_object_path in Hnone.
  rewrite (proj1 (remove_object_om h emit' _)).
  rewrite (proj1 (register_object_om h emit w Hexp)).
  apply ObjectManager_eq.
  - rewrite _lookup_remove_objects, _lookup_add_objects.
    by apply delete_insert_id.
  - apply map_eq. intros k. rewrite _lookup_remove_index, _lookup_add_objects.
    rewrite lookup_insert_eq. rewrite _lookup_add_index, _lookup_remove_index.
    rewrite Hnone.
    assert (∀ key, key = lvm_id h ∨ key = Uuid h → key = Some k →
              _id_to_object_path (om w) !! k = None) as Hfree.
    { intros key [->| ->] E; [rewrite E in Hl|rewrite E in Hu]; simpl in *;
        match goal with H : bool_decide _ = false |- _ =>
          apply bool_decide_eq_false in H; by apply eq_None_not_Some end. }
    case_bool_decide as Hid.
    + symmetry. destruct Hid as [E|E]; simpl in E; eauto.
    + rewrite bool_decide_eq_false_2; [done|]. intros [? _]. by apply Hid.
Qed.

Lemma lookup_update_world (h : dbus_object) (new_uuid new_lvm_id : option string)
    (w : world) :
  let added := _lookup_add (Some h) (ap_o_path h) new_lvm_id new_uuid (om w) in
  lookup_update h new_uuid new_lvm_id w = (added.1, set_om w added.2).
Proof.
  unfold lookup_update, bind, on_self, dbus_object_path. cbn [fst snd set_om om].
  unfold _lookup_add. rewrite _lookup_remove_idemp.
  by destruct (truthy new_lvm_id || truthy new_uuid).
Qed.

(** X3.  [lookup_update] with a non-empty new identifier returns and sends
    nothing; afterwards the object is at its path, registered before or
    not, each non-empty new identifier is looked up to the object and its
    path, and every identifier that the entry at the path had before and
    that is not a new one is no longer indexed. *)
Theorem lookup_update_replaces (h : dbus_object) (new_uuid new_lvm_id : option string)
    (w : world) :
  truthy new_lvm_id || truthy new_uuid = true →
  let res := lookup_update h new_uuid new_lvm_id w in
  let path := dbus_object_path h in
  res.1 = Return () ∧
  generated res.2 = generated w ∧ bus res.2 = bus w ∧
  get_object_by_path path (om res.2) = Some h ∧
  (∀ k, k ≠ "" → new_lvm_id = Some k ∨ new_uuid = Some k →
     get_object_path_by_lvm_id k (om res.2) = path ∧
     get_object_by_lvm_id k (om res.2) = Some h) ∧
  (∀ old k, _objects (om w) !! path = Some old → has_id old k →
     new_lvm_id ≠ Some k → new_uuid ≠ Some k →
     _id_to_object_path (om res.2) !! k = None).
Proof.
  intros Ht res path. subst res. rewrite lookup_update_world.
  cbn [fst snd set_om om generated bus].
  rewrite _lookup_add_outcome, Ht.
  split; [done|]. split; [done|]. split; [done|].
  assert (get_object_by_path path
            (_lookup_add (Some h) (ap_o_path h) new_lvm_id new_uuid (om w)).2
          = Some h) as Hobj.
  { unfold get_object_by_path. rewrite _lookup_add_objects.
    subst path. unfold dbus_object_path. by rewrite lookup_insert_eq. }
  split; [done|]. split.
  - intros k Hk Hid. unfold get_object_path_by_lvm_id, get_object_by_lvm_id.
    rewrite _lookup_add_index. by rewrite bool_decide_eq_true_2.
  - intros old k Hold Hid Hl Hu. rewrite _lookup_add_index, _lookup_remove_index.
    rewrite bool_decide_eq_false_2 by (intros [[?|?] _]; done).
    unfold path, dbus_object_path in Hold. rewrite Hold.
    by rewrite bool_decide_eq_true_2.
Qed.

(** X4.  [lookup_update] with the object's own identifiers leaves the
    registry that [register_object] leaves (for an object whose export
    does not raise), and with the same outcome; it sends no signal. *)
Theorem lookup_update_as_register (h : dbus_object) (emit : bool) (w : world) :
  is_Some (export_props h) →
  let updated := lookup_update h (Uuid h) (lvm_id h) w in
  let registered := register_object h emit w in
  om updated.2 = om registered.2 ∧
  updated.1 = registered.1 ∧
  bus updated.2 = bus w.
Proof.
  intros [props Hprops] updated registered. subst updated registered.
  rewrite lookup_update_world, (register_object_world h emit w props Hprops).
  done.
Qed.

(** X5.  [register_object] of an object with neither an lvm_id nor a Uuid
    raises [AssertionError] and sends no signal, but only after the
    registry was changed: the object is stored at its path, where
    [get_object_by_path] returns it, the entry that was at the path is
    gone with its index entries, and I1 no longer holds. *)
Theorem register_without_identifier (h : dbus_object) (emit : bool) (w : world) :
  is_Some (export_props h) →
  truthy (lvm_id h) = false → truthy (Uuid h) = false →
  let res := register_object h emit w in
  let path := dbus_object_path h in
  res.1 = Raise AssertionError ∧
  generated res.2 = generated w ∧ bus res.2 = bus w ∧
  get_object_by_path path (om res.2) = Some h ∧
  _id_to_object_path (om res.2) = _id_to_object_path (_lookup_remove path (om w)) ∧
  ¬ I1 (om res.2).
Proof.
  intros [props Hprops] Hl Hu res path. subst res.
  rewrite (register_object_world h emit w props Hprops).
  cbn [fst snd om generated bus].
  rewrite _lookup_add_outcome, Hl, Hu. simpl orb. cbv iota.
  split; [done|]. split; [done|]. split; [done|].
  assert (_objects (_lookup_add (Some h) (ap_o_path h) (lvm_id h) (Uuid h) (om w)).2
          !! path
          = Some {| e_obj := Some h; e_lvm_id := lvm_id h; e_uuid := Uuid h |})
    as Hobj.
  { rewrite _lookup_add_objects. subst path. unfold dbus_object_path.
    by rewrite lookup_insert_eq. }
  split; [|split].
  - unfold get_object_by_path. by rewrite Hobj.
  - unfold _lookup_add. by rewrite Hl, Hu.
  - intros H1. apply H1 in Hobj. simpl in Hobj. by rewrite Hl, Hu in Hobj.
Qed.

(** X6.  [remove_object] always returns; it calls [remove_from_connection]
    and, when [emit_signal] is set, sends [InterfacesRemoved], whether the
    object was registered or not; for a path that is not registered the
    registry is unchanged; and a second [remove_object] leaves the registry
    of the first. *)
Theorem remove_object_always (h : dbus_object) (emit emit' : bool) (w : world) :
  let res := remove_object h emit w in
  let path := dbus_object_path h in
  res.1 = Return () ∧
  generated res.2 = generated w ∧
  bus res.2
  = bus w ++ remove_from_connection path
      :: (if emit then [InterfacesRemoved path (interface h)] else []) ∧
  (_objects (om w) !! path = None → om res.2 = om w) ∧
  om (remove_object h emit' res.2).2 = om res.2.
Proof.
  intros res path. subst res.
  split; [apply remove_object_om|].
  split; [by destruct emit|].
  split.
  { unfold remove_object, bind, on_self, send, ret, set_om. simpl.
    destruct emit; simpl; by rewrite <- ?app_assoc. }
  split.
  - intros Hnone. rewrite (proj1 (remove_object_om h emit w)).
    unfold _lookup_remove. unfold path, dbus_object_path in Hnone.
    by rewrite Hnone.
  - rewrite !(proj1 (remove_object_om h _ _)). apply _lookup_remove_idemp.
Qed.

(** The three ways of [get_object_path_by_uuid_lvm_id]: a failed
    assertion, the lookup of one identifier given twice, and the lookups
    of two different identifiers. *)
Lemma get_object_path_cases (uo lo : option string)
    (pc : option path_generator) (g : bool) (w : world) :
  let res := get_object_path_by_uuid_lvm_id uo lo pc g w in
  res = (Raise AssertionError, w)
  ∨ (uo = lo ∧ res = (Return (_id_lookup lo (om w)), w))
  ∨ ∃ u d, uo = Some u ∧ lo = Some d ∧ u ≠ "" ∧ d ≠ "" ∧ u ≠ d ∧
      res = lookup_verify_create (Some u) (settled_lvm_id pc d) pc g w.
Proof.
  intros res.
  destruct (decide (uo = lo)) as [->|Hne].
  { destruct (get_object_path_same_ids realpath mint lo pc g w)
      as (Hw & [H1|H1] & _); fold res in Hw, H1; [left|right; left; split; [done|]];
      destruct res as [r w']; simpl in *; congruence. }
  destruct (truthy uo) eqn:Htu.
  2:{ left. subst res.
      unfold get_object_path_by_uuid_lvm_id, bind, assert_, raise, ret.
      rewrite Htu. by destruct (truthy lo). }
  destruct (truthy lo) eqn:Htl.
  2:{ left. subst res.
      unfold get_object_path_by_uuid_lvm_id, bind, assert_, raise, ret.
      by rewrite Htl. }
  apply truthy_Some in Htu as (u & -> & Hu).
  apply truthy_Some in Htl as (d & -> & Hd).
  assert (u ≠ d) as Hud by congruence.
  destruct (decide (g = true → is_Some pc)) as [Hpc|Hpc].
  - right. right. exists u, d. repeat (split; [done|]).
    by apply get_object_path_distinct.
  - left. destruct g; [|by destruct Hpc]. destruct pc; [by destruct Hpc|].
    subst res.
    unfold get_object_path_by_uuid_lvm_id, bind, assert_, raise, ret.
    apply str_truthy_ne in Hu, Hd. simpl. by rewrite Hu, Hd.
Qed.

Lemma get_object_by_path_add_found (p q : string) (l u : option string)
    (self : ObjectManager) :
  get_object_by_path q (_lookup_add (get_object_by_path p self) p l u self).2
  = get_object_by_path q self.
Proof.
  unfold get_object_by_path at 1 3. rewrite _lookup_add_objects.
  destruct (decide (p = q)) as [->|Hne].
  - by rewrite lookup_insert_eq.
  - by rewrite lookup_insert_ne.
Qed.

(** X7.  [get_object_path_by_uuid_lvm_id] leaves the object of every path
    as it was, [None] included, except at the path that the generator
    returns when [gen_new] is set: its lookups and verifications may index
    an entry under other identifiers, and never put another object at a
    path. *)
Theorem resolve_keeps_objects (uo lo : option string)
    (pc : option path_generator) (g : bool) (w : world) (q : string) :
  g = false ∨ (∀ gen, pc = Some gen → q ≠ mint gen (generated w)) →
  let res := get_object_path_by_uuid_lvm_id uo lo pc g w in
  get_object_by_path q (om res.2) = get_object_by_path q (om w) ∧
  bus res.2 = bus w ∧
  (g = false → generated res.2 = generated w).
Proof.
  intros Hq res.
  destruct (get_object_path_cases uo lo pc g w)
    as [E|[[_ E]|(u & d & _ & _ & Hu & Hd & Hud & E)]]; fold res in E;
    [by rewrite E..|].
  rewrite E. clear E res.
  pose proof (settled_lvm_id_ne pc u d Hud) as Hl.
  destruct (lookup_verify_create_cases realpath mint u (settled_lvm_id pc d)
              pc g w Hu Hl)
    as [(p & Ep & Hp & [[_ ->]|(Htl & Hin & ->)])
       |[(Hfu & p & Ep & Hp & [[_ ->]|[Hin ->]])
        |(Hfu & Hfl & [[_ ->]|[(_ & _ & ->)|(-> & gen & -> & ->)]])]];
    cbn [fst snd set_om om bus generated]; try done.
  - by rewrite get_object_by_path_add_found.
  - by rewrite get_object_by_path_add_found.
  - destruct Hq as [[=]|Hq]. split; [|done].
    unfold get_object_by_path. rewrite _lookup_add_objects.
    rewrite lookup_insert_ne; [done|]. intros E. by apply (Hq gen).
Qed.

(** X8.  [get_object_by_uuid_lvm_id] calls no path generator and sends
    nothing, and it leaves the object of every path as it was; when it
    returns, it returns the object at the path that
    [get_object_path_by_uuid_lvm_id] returns without [gen_new], so an object
    that it returns is an object of the registry. *)
Theorem get_object_by_uuid_lvm_id_reads (uo lo : option string) (w : world) :
  let res := get_object_by_uuid_lvm_id uo lo w in
  let found := get_object_path_by_uuid_lvm_id uo lo None false w in
  generated res.2 = generated w ∧ bus res.2 = bus w ∧
  (∀ q, get_object_by_path q (om res.2) = get_object_by_path q (om w)) ∧
  res.2 = found.2 ∧
  (∀ p, found.1 = Return (Some p) →
     res.1 = Return (get_object_by_path p (om w))) ∧
  (found.1 = Return None → res.1 = Return None) ∧
  (∀ o, res.1 = Return (Some o) → ∃ p, get_object_by_path p (om w) = Some o).
Proof.
  intros res found.
  assert (∀ q, get_object_by_path q (om found.2) = get_object_by_path q (om w)
               ∧ bus found.2 = bus w ∧ generated found.2 = generated w) as Hkeep.
  { intros q. destruct (resolve_keeps_objects uo lo None false w q) as (? & ? & ?);
      auto. }
  assert (res = match found.1 with
                | Return (Some p) => (Return (get_object_by_path p (om found.2)), found.2)
                | Return None => (Return None, found.2)
                | Raise e => (Raise e, found.2)
                end) as Hres.
  { subst res found. unfold get_object_by_uuid_lvm_id, bind, get_self, ret.
    by destruct (get_object_path_by_uuid_lvm_id uo lo None false w)
      as [[[p|]|e] w']. }
  assert (res.2 = found.2) as Hw.
  { rewrite Hres. by destruct found.1 as [[p|]|e]. }
  rewrite Hw. destruct (Hkeep "") as (_ & Hb & Hg).
  split; [done|]. split; [done|]. split; [intros q; apply Hkeep|].
  split; [done|]. split; [|split].
  - intros p E. rewrite Hres, E. cbn [fst]. f_equal. apply Hkeep.
  - intros E. by rewrite Hres, E.
  - intros o. rewrite Hres. destruct found.1 as [[p|]|e]; cbn [fst]; [|done..].
    intros [= E]. exists p. by rewrite <- (proj1 (Hkeep p)).
Qed.

(** X9.  For an identifier that is indexed itself, the query with the
    identifier given as uuid and as lvm_id returns what
    [get_object_by_lvm_id] returns, and changes nothing. *)
Theorem lookup_by_one_identifier (k : string) (w : world) :
  k ≠ "" → is_Some (_id_to_object_path (om w) !! k) →
  get_object_by_uuid_lvm_id (Some k) (Some k) w
  = (Return (get_object_by_lvm_id k (om w)), w).
Proof.
  intros Hk [p Ep].
  pose proof (_id_lookup_direct realpath (om w) k p Hk Ep) as Hlook.
  destruct (get_object_path_same_ids realpath mint (Some k) None false w)
    as (Hw & _ & Hr & _).
  specialize (Hr (proj2 (str_truthy_ne k) Hk) eq_refl).
  unfold get_object_by_uuid_lvm_id, bind, get_self, ret.
  destruct (get_object_path_by_uuid_lvm_id (Some k) (Some k) None false w)
    as [r w'] eqn:E. cbn [fst snd] in Hw, Hr. subst w' r. rewrite Hlook.
  unfold get_object_by_lvm_id. by rewrite Ep.
Qed.

Lemma _id_lookup_registered (key : option string) (self : ObjectManager) (p : string) :
  index_sound self → _id_lookup key self = Some p → is_Some (_objects self !! p).
Proof.
  intros Hs H. apply _id_lookup_Some in H as (k & _ & _ & [E|[_ [k' E]]]);
    apply Hs in E as (_ & e & -> & _); eauto.
Qed.

(** X10.  In a registry made by calls, a path that
    [get_object_path_by_uuid_lvm_id] returns is a path of the entry table
    after the call: no lookup returns the path of a removed entry. *)
Theorem returned_path_is_registered (cs : list call) (uo lo : option string)
    (pc : option path_generator) (g : bool) (p : string) :
  let w := run cs world_init in
  let res := get_object_path_by_uuid_lvm_id uo lo pc g w in
  res.1 = Return (Some p) → is_Some (_objects (om res.2) !! p).
Proof.
  intros w res Hres.
  assert (index_sound (om w)) as Hs.
  { apply run_index_sound. apply om_init_invariants. }
  destruct (get_object_path_cases uo lo pc g w)
    as [E|[[_ E]|(u & d & _ & _ & Hu & Hd & Hud & E)]]; fold res in E;
    rewrite E in Hres |- *; cbn [fst snd] in *; [done| |].
  { injection Hres as Hres. by eapply _id_lookup_registered. }
  clear E res.
  pose proof (settled_lvm_id_ne pc u d Hud) as Hl.
  destruct (lookup_verify_create_cases realpath mint u (settled_lvm_id pc d)
              pc g w Hu Hl)
    as [(p' & Ep & Hp & [[_ E]|(Htl & Hin & E)])
       |[(Hfu & p' & Ep & Hp & [[_ E]|[Hin E]])
        |(Hfu & Hfl & [[_ E]|[(_ & _ & E)|(_ & gen & -> & E)]])]];
    rewrite E in Hres |- *; cbn [fst snd set_om om] in *;
    try (injection Hres as Hres); try subst p'; try done.
  - by eapply _id_lookup_registered.
  - rewrite _lookup_add_objects, lookup_insert_eq. eauto.
  - by eapply _id_lookup_registered.
  - rewrite _lookup_add_objects, lookup_insert_eq. eauto.
  - by eapply _id_lookup_registered.
  - subst p. rewrite _lookup_add_objects, lookup_insert_eq. eauto.
Qed.

(** X11.  In a registry made by calls, the object that
    [get_object_by_path] returns for a path has that path for its own, and
    the object that [get_object_by_lvm_id] returns for an identifier has
    the path that [get_object_path_by_lvm_id] returns for it. *)
Theorem object_found_is_at_its_path (cs : list call) :
  let self := om (run cs world_init) in
  (∀ p o, get_object_by_path p self = Some o → dbus_object_path o = p) ∧
  (∀ k o, get_object_by_lvm_id k self = Some o →
     get_object_path_by_lvm_id k self = dbus_object_path o).
Proof.
  intros self.
  assert (objects_at_own_path self) as Ho.
  { apply run_objects_at_own_path. apply om_init_invariants. }
  assert (∀ p o, get_object_by_path p self = Some o → dbus_object_path o = p)
    as Hpath.
  { intros p o. unfold get_object_by_path.
    destruct (_objects self !! p) as [e|] eqn:E; [|done].
    intros Eo. by apply (Ho p e o). }
  split; [done|].
  intros k o. unfold get_object_by_lvm_id, get_object_path_by_lvm_id.
  destruct (_id_to_object_path self !! k) as [p|]; [|done].
  intros Eo. symmetry. by apply Hpath.
Qed.

(** X12.  In a registry made by calls, an identifier in the index is not
    empty and is one of the two identifiers stored in the entry of the
    path it is indexed to. *)
Theorem index_keys_are_identifiers (cs : list call) (k p : string) :
  let self := om (run cs world_init) in
  _id_to_object_path self !! k = Some p →
  k ≠ "" ∧
  ∃ e, _objects self !! p = Some e ∧
       (e_lvm_id e = Some k ∨ e_uuid e = Some k).
Proof.
  intros self E.
  assert (index_sound self) as Hs.
  { apply run_index_sound. apply om_init_invariants. }
  by apply Hs.
Qed.

(** X13.  The path made ahead of its object, then the object: when
    [get_object_path_by_uuid_lvm_id] has created the path [p] for two
    identifiers and an object with that path and those identifiers is
    registered, the entry table is the one before the two calls with the
    object's entry at [p], the index is as the creation left it, and both
    [get_object_by_uuid_lvm_id] and a second
    [get_object_path_by_uuid_lvm_id] find the object and [p] without
    changing anything. *)
Theorem create_path_then_register (u d : string) (gen : path_generator)
    (h : dbus_object) (emit : bool) (w : world) :
  u ≠ "" → d ≠ "" → u ≠ d →
  settled_lvm_id (Some gen) d = Some d →
  truthy (_id_lookup (Some u) (om w)) = false →
  truthy (_id_lookup (Some d) (om w)) = false →
  mint gen (generated w) ≠ "" →
  dbus_object_path h = mint gen (generated w) →
  lvm_id h = Some d → Uuid h = Some u → is_Some (export_props h) →
  let p := mint gen (generated w) in
  let w1 := (get_object_path_by_uuid_lvm_id (Some u) (Some d) (Some gen) true w).2 in
  let w2 := (register_object h emit w1).2 in
  _objects (om w2)
  = <[p := {| e_obj := Some h; e_lvm_id := Some d; e_uuid := Some u |}]>
      (_objects (om w)) ∧
  _id_to_object_path (om w2) = _id_to_object_path (om w1) ∧
  get_object_by_uuid_lvm_id (Some u) (Some d) w2 = (Return (Some h), w2) ∧
  get_object_path_by_uuid_lvm_id (Some u) (Some d) (Some gen) true w2
  = (Return (Some p), w2).
Proof.
  intros Hu Hd Hud Hset Hfu Hfd Hp Hpath Hl Huu Hexp p w1 w2.
  unfold dbus_object_path in Hpath.
  assert (om w1 = (_lookup_add None p (Some d) (Some u) (om w)).2) as Hw1.
  { subst w1. rewrite get_object_path_distinct by (done || eauto). rewrite Hset.
    pose proof (settled_lvm_id_ne (Some gen) u d Hud) as Hne. rewrite Hset in Hne.
    destruct (lookup_verify_create_cases realpath mint u (Some d)
                (Some gen) true w Hu Hne)
      as [(q & Eq & Hq & _)
         |[(_ & q & Eq & Hq & _)
          |(_ & _ & [[[=] _]|[(_ & [=] & _)|(_ & gen' & [= <-] & ->)]])]];
      [by destruct (found_not_falsy realpath (Some u) (om w) q)
      |by destruct (found_not_falsy realpath (Some d) (om w) q)|done]. }
  assert (om w2 = (_lookup_add (Some h) p (Some d) (Some u) (om w1)).2) as Hw2.
  { subst w2. rewrite (proj1 (register_object_om h emit w1 Hexp)).
    by rewrite Hpath, Hl, Huu. }
  assert (_id_to_object_path (om w2) = _id_to_object_path (om w1)) as Hidx.
  { apply map_eq. intros k. rewrite Hw2, _lookup_add_index, _lookup_remove_index.
    rewrite Hw1 at 1 2. rewrite _lookup_add_objects, lookup_insert_eq.
    rewrite Hw1, _lookup_add_index.
    case_bool_decide as Hnew; [done|].
    rewrite bool_decide_eq_false_2; [done|].
    intros [E|E]; simpl in E; apply Hnew; (split; [by auto|]); congruence. }
  split; [|split; [done|split]].
  - rewrite Hw2, _lookup_add_objects, Hw1, _lookup_add_objects.
    apply insert_insert_eq.
  - unfold get_object_by_uuid_lvm_id, bind, get_self, ret.
    rewrite get_object_path_distinct by (done || discriminate).
    assert (settled_lvm_id None d = Some d) as ->.
    { unfold settled_lvm_id. by rewrite bool_decide_eq_false_2 by (by intros [? _]). }
    erewrite lookup_verify_create_after_add;
      [|done|exact Hp|congruence|congruence|exact Hw2].
    unfold get_object_by_path.
    by rewrite Hw2, _lookup_add_objects, lookup_insert_eq.
  - rewrite get_object_path_distinct by (done || eauto). rewrite Hset.
    eapply lookup_verify_create_after_add; [done..| |congruence|exact Hw2].
    congruence.
Qed.
End MoreMethods.

(** ** [object_paths_by_type] and the lock *)

Section ByTypeProperties.

Variable o_type_class : Type.
Variable isinstance : option dbus_object → o_type_class → bool.

Lemma collect_by_type_lookup (items : list (string * entry))
    (o_type : o_type_class) (rc : gmap string bool) (k : string) :
  NoDup items.*1 →
  collect_by_type o_type_class isinstance items o_type rc !! k
  = match (list_to_map items : gmap string entry) !! k with
    | Some e => if isinstance (e_obj e) o_type then Some true else rc !! k
    | None => rc !! k
    end.
Proof.
  revert rc. induction items as [|[k0 v] items IH]; intros rc Hnd.
  - simpl. by rewrite lookup_empty.
  - apply NoDup_cons in Hnd as [Hk0 Hnd]. simpl collect_by_type.
    rewrite IH by done.
    change (list_to_map ((k0, v) :: items) : gmap string entry)
      with (<[k0 := v]> (list_to_map items : gmap string entry)).
    destruct (decide (k0 = k)) as [->|Hne].
    + rewrite (not_elem_of_list_to_map_1 _ k Hk0), lookup_insert_eq.
      destruct (isinstance (e_obj v) o_type); [by rewrite lookup_insert_eq|done].
    + rewrite (lookup_insert_ne (list_to_map items)) by done.
      destruct (isinstance (e_obj v) o_type); [by rewrite lookup_insert_ne|done].
Qed.

(** X14.  [object_paths_by_type] returns the dictionary that has [True]
    for exactly the paths of the entry table whose object is an instance of
    the type: it has no other key, and no other value. *)
Theorem object_paths_by_type_spec (o_type : o_type_class) (self : ObjectManager) :
  let rc := object_paths_by_type o_type_class isinstance o_type self in
  (∀ k, rc !! k = Some true ↔
     ∃ e, _objects self !! k = Some e ∧ isinstance (e_obj e) o_type = true) ∧
  (∀ k, rc !! k ≠ Some false) ∧
  dom rc ⊆ dom (_objects self).
Proof.
  intros rc.
  assert (∀ k, rc !! k = match _objects self !! k with
                         | Some e => if isinstance (e_obj e) o_type
                                     then Some true else None
                         | None => None
                         end) as Hrc.
  { intros k. subst rc. unfold object_paths_by_type.
    rewrite collect_by_type_lookup by apply NoDup_fst_map_to_list.
    rewrite list_to_map_to_list, lookup_empty. by destruct (_ !! k). }
  split; [|split].
  - intros k. rewrite Hrc. destruct (_objects self !! k) as [e|].
    + destruct (isinstance (e_obj e) o_type) eqn:Ei.
      * split; [eauto|done].
      * split; [done|]. intros (e' & [= <-] & ?). congruence.
    + split; [done|]. by intros (? & ? & _).
  - intros k. rewrite Hrc. destruct (_objects self !! k) as [e|]; [|done].
    by destruct (isinstance (e_obj e) o_type).
  - intros k. rewrite !elem_of_dom, Hrc.
    destruct (_objects self !! k) as [e|]; [eauto|]. by intros [? ?].
Qed.

End ByTypeProperties.

(** X15.  A guard made by [locked] and entered by a thread that owns the
    lock, or when nobody owns it, takes the lock one level deeper for that
    thread; leaving the guard puts the lock back as it was before, and the
    guard has forgotten the lock. *)
Theorem guard_enter_exit (t : nat) (rlock : RLock) :
  RLock_wf rlock →
  rl_owner rlock = None ∨ rl_owner rlock = Some t →
  ∃ held,
    __enter__ t locked rlock = Done (locked, held) ∧
    rl_owner held = Some t ∧ rl_level held = S (rl_level rlock) ∧
    __exit__ t locked held = Done ({| _lock := None |}, rlock).
Proof.
  intros Hwf Howner. destruct rlock as [owner level].
  unfold RLock_wf in Hwf. cbn [rl_owner rl_level] in *.
  unfold __enter__, __exit__, acquire, release, locked.
  cbn [_lock rl_owner rl_level].
  destruct Howner as [-> | ->].
  - subst level. eexists. split; [done|]. cbn [rl_owner rl_level].
    split; [done|]. split; [done|].
    by rewrite bool_decide_eq_true_2.
  - rewrite bool_decide_eq_true_2 by done.
    eexists. split; [done|]. cbn [rl_owner rl_level].
    split; [done|]. split; [done|].
    rewrite bool_decide_eq_true_2 by done.
    destruct level as [|n]; [lia|done].
Qed.

(** X16.  A guard that was left cannot be used again: [__exit__] sets
    [_lock] to [None], so that a second [__enter__] or [__exit__] on the
    guard raises [AttributeError], whatever the lock and the thread. *)
Theorem guard_single_use (t t' : nat) (guard guard' : ObjectManagerLock)
    (rlock rlock' other : RLock) :
  __exit__ t guard rlock = Done (guard', rlock') →
  _lock guard' = None ∧
  __enter__ t' guard' other = RaisesAttributeError ∧
  __exit__ t' guard' other = RaisesAttributeError.
Proof.
  unfold __exit__. destruct (_lock guard) as [[]|]; [|done].
  destruct (release t rlock); [|done..]. by intros [= <- _].
Qed.

(** ** The properties at the example data *)

Lemma index_paths_nonempty_check (self : ObjectManager) :
  bool_decide (map_Forall (λ _ (p : string), p ≠ "") (_id_to_object_path self)) = true →
  index_paths_nonempty self.
Proof.
  intros H%bool_decide_eq_true_1 k E. by apply (H k "" E).
Qed.

Lemma slash_free_check (s : string) : contains_slash s = false → slash_free s.
Proof. apply contains_slash_false. Qed.

(** C1, as stated, fails: with two objects registered under one name the
    calls all return and the first object's name is indexed to the second
    object's path, against I4. *)
Lemma invariants_twins_counterexample :
  all_return ex_realpath ex_mint ex_calls_twins world_init = true
  ∧ ¬ I4 (om (run ex_realpath ex_mint ex_calls_twins world_init)).
Proof.
  split; [vm_compute; reflexivity|]. intros H4.
  assert (_objects (om (run ex_realpath ex_mint ex_calls_twins world_init)) !! "/o1"
          = Some {| e_obj := Some ex_lv0; e_lvm_id := Some "vg0/lv0";
                    e_uuid := Some "u1" |}) as Hobj
    by (vm_compute; reflexivity).
  destruct (H4 _ _ "vg0/lv0" "u1" Hobj eq_refl eq_refl) as [E _];
    [discriminate|discriminate|discriminate|].
  vm_compute in E. discriminate E.
Qed.

(** C1 (amended) at [ex_calls]: the calls return, none brings a clashing
    identifier, and I1-I4 hold after them. *)
Lemma invariants_after_calls_witness :
  all_return ex_realpath ex_mint ex_calls world_init = true
  ∧ all_clash_free ex_realpath ex_mint ex_calls world_init = true
  ∧ I1 (om (run ex_realpath ex_mint ex_calls world_init))
  ∧ I2 (om (run ex_realpath ex_mint ex_calls world_init))
  ∧ I3 (om (run ex_realpath ex_mint ex_calls world_init))
  ∧ I4 (om (run ex_realpath ex_mint ex_calls world_init)).
Proof.
  assert (all_return ex_realpath ex_mint ex_calls world_init = true) as Hr
    by (vm_compute; reflexivity).
  assert (all_clash_free ex_realpath ex_mint ex_calls world_init = true) as Hc
    by (vm_compute; reflexivity).
  destruct (invariants_after_calls ex_realpath ex_mint ex_calls)
    as (H1 & H2 & H3 & H4).
  split; [exact Hr|]. split; [exact Hc|].
  split; [exact (H1 Hr)|]. split; [exact H2|]. split; [exact H3|exact (H4 Hc)].
Defined.

(** C2, as stated, fails: for a missing PV the path is created and
    ['[unknown]'] is not indexed. *)
Lemma resolve_or_create_unknown_counterexample :
  _id_lookup ex_realpath (Some "u1") om_init = None
  ∧ _id_lookup ex_realpath (Some "[unknown]") om_init = None
  ∧ (get_object_path_by_uuid_lvm_id ex_realpath ex_mint (Some "u1")
       (Some "[unknown]") (Some pv_obj_path_generate) true world_init).1
    = Return (Some "/com/redhat/lvmdbus1/Pv/0")
  ∧ _id_to_object_path
      (om (get_object_path_by_uuid_lvm_id ex_realpath ex_mint (Some "u1")
             (Some "[unknown]") (Some pv_obj_path_generate) true world_init).2)
    !! "[unknown]" = None.
Proof. repeat split; vm_compute; reflexivity. Qed.

(** C2 (amended) at [ex_world_lv0]: the uuid of [ex_lv0] is found. *)
Lemma resolve_or_create_steps_witness :
  "u1" ≠ "" ∧ "vg0/lv0" ≠ "" ∧ "u1" ≠ "vg0/lv0"
  ∧ index_paths_nonempty (om ex_world_lv0)
  ∧ (get_object_path_by_uuid_lvm_id ex_realpath ex_mint (Some "u1")
       (Some "vg0/lv0") (Some ex_lv_generate) true ex_world_lv0).1
    = Return (Some "/o1").
Proof.
  assert (index_paths_nonempty (om ex_world_lv0)) as Hne
    by (apply index_paths_nonempty_check; vm_compute; reflexivity).
  split; [discriminate|]. split; [discriminate|]. split; [discriminate|].
  split; [exact Hne|].
  assert (_id_lookup ex_realpath (Some "u1") (om ex_world_lv0) = Some "/o1")
    as Hhit by (vm_compute; reflexivity).
  pose proof (resolve_or_create_steps ex_realpath ex_mint "u1" "vg0/lv0"
                (Some ex_lv_generate) true ex_world_lv0) as H.
  cbv zeta in H. destruct H as [H _];
    [discriminate|discriminate|discriminate|eauto|exact Hne|].
  exact (H "/o1" Hhit).
Defined.





(** C5 at [ex_world_lv0]. *)
Lemma identity_query_pure_witness :
  (get_object_path_by_uuid_lvm_id ex_realpath ex_mint (Some "vg0/lv0")
     (Some "vg0/lv0") None false ex_world_lv0).2 = ex_world_lv0.
Proof.
  pose proof (identity_query_pure ex_realpath ex_mint (Some "vg0/lv0")
                (Some "vg0/lv0") None false ex_world_lv0 eq_refl) as H.
  cbv zeta in H. destruct H as [H _]. exact H.
Defined.

(** C6 on the empty registry. *)
Lemma unknown_pv_lvm_id_witness :
  "u1" ≠ "" ∧ "u1" ≠ "[unknown]"
  ∧ _id_to_object_path
      (om (get_object_path_by_uuid_lvm_id ex_realpath ex_mint (Some "u1")
             (Some "[unknown]") (Some pv_obj_path_generate) true world_init).2)
    !! "[unknown]" = None.
Proof.
  split; [discriminate|]. split; [discriminate|].
  pose proof (unknown_pv_lvm_id ex_realpath ex_mint "u1" true world_init) as H.
  cbv zeta in H. destruct H as (_ & _ & _ & _ & H); [discriminate|discriminate|].
  apply H. reflexivity.
Defined.

(** C7 at [ex_world_hidden]: the name of the hidden volume without the
    brackets finds it. *)
Lemma id_lookup_fallbacks_witness :
  "vg0/lv0_rimage_0" ≠ ""
  ∧ _id_to_object_path (om ex_world_hidden) !! "vg0/lv0_rimage_0" = None
  ∧ _id_lookup ex_realpath (Some "vg0/lv0_rimage_0") (om ex_world_hidden)
    = _id_to_object_path (om ex_world_hidden) !! "vg0/[lv0_rimage_0]".
Proof.
  split; [discriminate|]. split; [vm_compute; reflexivity|].
  pose proof (id_lookup_fallbacks ex_realpath (om ex_world_hidden)
                "vg0/lv0_rimage_0") as H.
  cbv zeta in H. destruct H as (_ & H & _); [discriminate|].
  apply (H ltac:(vm_compute; reflexivity) "vg0" "lv0_rimage_0");
    [reflexivity|apply slash_free_check; reflexivity|discriminate].
Defined.

(** C8 at [ex_lv0]. *)
Lemma register_remove_get_witness :
  is_Some (export_props ex_lv0)
  ∧ get_object_by_path (dbus_object_path ex_lv0)
      (om (register_object ex_lv0 true world_init).2) = Some ex_lv0.
Proof.
  split; [eauto|].
  pose proof (register_remove_get ex_lv0 true world_init) as H.
  cbv zeta in H. destruct H as [H _]; [eauto|]. exact H.
Defined.

(** C9 at [ex_world_lv0]. *)
Lemma GetManagedObjects_witness :
  objects_at_own_path (om ex_world_lv0)
  ∧ (GetManagedObjects ex_world_lv0).1
    = Return (omap exported (_objects (om ex_world_lv0))).
Proof.
  assert (objects_at_own_path (om ex_world_lv0)) as Hown.
  { apply run_objects_at_own_path. apply om_init_invariants. }
  split; [exact Hown|].
  pose proof (GetManagedObjects_all_or_exit ex_world_lv0 Hown) as H.
  cbv zeta in H. destruct H as (_ & _ & H & _).
  apply H.
  apply (bool_decide_eq_true_1
           (map_Forall (λ _ e, is_Some (exported e)) (_objects (om ex_world_lv0)))).
  vm_compute. reflexivity.
Defined.

(** C10 at [ex_world_lv0]. *)
Lemma placeholder_has_no_object_witness :
  "u2" ≠ "" ∧ "vg0/lv1" ≠ "" ∧ "u2" ≠ "vg0/lv1"
  ∧ truthy (_id_lookup ex_realpath (Some "u2") (om ex_world_lv0)) = false
  ∧ truthy (_id_lookup ex_realpath
              (settled_lvm_id (Some ex_lv_generate) "vg0/lv1") (om ex_world_lv0))
    = false
  ∧ get_object_by_path (ex_mint ex_lv_generate (generated ex_world_lv0))
      (om (get_object_path_by_uuid_lvm_id ex_realpath ex_mint (Some "u2")
             (Some "vg0/lv1") (Some ex_lv_generate) true ex_world_lv0).2)
    = None.
Proof.
  split; [discriminate|]. split; [discriminate|]. split; [discriminate|].
  split; [vm_compute; reflexivity|]. split; [vm_compute; reflexivity|].
  pose proof (placeholder_has_no_object ex_realpath ex_mint "u2" "vg0/lv1"
                (Some ex_lv_generate) ex_world_lv0 ex_lv_generate) as H.
  cbv zeta in H. destruct H as (_ & _ & H & _);
    [discriminate|discriminate|discriminate|reflexivity
    |vm_compute; reflexivity|vm_compute; reflexivity|].
  exact H.
Defined.

(** ** The further properties at the example data *)

(** X1 at [ex_lv0]. *)
Lemma register_then_lookup_witness :
  "vg0/lv0" ≠ "" ∧ lvm_id ex_lv0 = Some "vg0/lv0"
  ∧ get_object_by_lvm_id "vg0/lv0" (om (register_object ex_lv0 true world_init).2)
    = Some ex_lv0.
Proof.
  split; [discriminate|]. split; [reflexivity|].
  pose proof (register_then_lookup ex_realpath ex_lv0 true world_init
                [("com.redhat.lvmdbus1.Lv", [("Name", "lv0")])] "vg0/lv0") as H.
  cbv zeta in H. destruct H as (_ & _ & H & _);
    [reflexivity|discriminate|left; reflexivity|].
  exact H.
Defined.

(** X2 at [ex_lv0], on the empty registry. *)
Lemma register_then_remove_witness :
  _objects (om world_init) !! dbus_object_path ex_lv0 = None
  ∧ key_in (lvm_id ex_lv0) (_id_to_object_path (om world_init)) = false
  ∧ key_in (Uuid ex_lv0) (_id_to_object_path (om world_init)) = false
  ∧ om (remove_object ex_lv0 true (register_object ex_lv0 true world_init).2).2
    = om world_init.
Proof.
  split; [reflexivity|]. split; [reflexivity|]. split; [reflexivity|].
  apply (register_then_remove ex_lv0 true true world_init);
    [eauto|reflexivity|reflexivity|reflexivity].
Defined.

(** X3 at [ex_world_lv0]: [ex_lv0] under a new name. *)
Lemma lookup_update_replaces_witness :
  truthy (Some "vg0/lv9") || truthy (Some "u1") = true
  ∧ (lookup_update ex_lv0 (Some "u1") (Some "vg0/lv9") ex_world_lv0).1 = Return ().
Proof.
  split; [reflexivity|].
  pose proof (lookup_update_replaces ex_lv0 (Some "u1") (Some "vg0/lv9")
                ex_world_lv0) as H.
  cbv zeta in H. destruct H as (H & _); [reflexivity|]. exact H.
Defined.

(** X4 at [ex_lv0]. *)
Lemma lookup_update_as_register_witness :
  is_Some (export_props ex_lv0)
  ∧ om (lookup_update ex_lv0 (Uuid ex_lv0) (lvm_id ex_lv0) world_init).2
    = om (register_object ex_lv0 true world_init).2.
Proof.
  split; [eauto|].
  pose proof (lookup_update_as_register ex_lv0 true world_init) as H.
  cbv zeta in H. destruct H as (H & _); [eauto|]. exact H.
Defined.

(** X5 at [ex_nameless]. *)
Lemma register_without_identifier_witness :
  is_Some (export_props ex_nameless)
  ∧ truthy (lvm_id ex_nameless) = false ∧ truthy (Uuid ex_nameless) = false
  ∧ (register_object ex_nameless true ex_world_lv0).1 = Raise AssertionError
  ∧ get_object_by_path "/o4" (om (register_object ex_nameless true ex_world_lv0).2)
    = Some ex_nameless.
Proof.
  split; [eauto|]. split; [reflexivity|]. split; [reflexivity|].
  pose proof (register_without_identifier ex_nameless true ex_world_lv0) as H.
  cbv zeta in H. destruct H as (H1 & _ & _ & H2 & _);
    [eauto|reflexivity|reflexivity|].
  split; [exact H1|exact H2].
Defined.

(** X7 at [ex_world_lv0]: a call that indexes [ex_lv0] under a new name. *)
Lemma resolve_keeps_objects_witness :
  get_object_by_path "/o1"
    (om (get_object_path_by_uuid_lvm_id ex_realpath ex_mint (Some "u1")
           (Some "vg0/lv1") None false ex_world_lv0).2)
  = get_object_by_path "/o1" (om ex_world_lv0).
Proof.
  pose proof (resolve_keeps_objects ex_realpath ex_mint (Some "u1")
                (Some "vg0/lv1") None false ex_world_lv0 "/o1") as H.
  cbv zeta in H. destruct H as (H & _); [left; reflexivity|]. exact H.
Defined.

(** X9 at [ex_world_lv0]. *)
Lemma lookup_by_one_identifier_witness :
  "vg0/lv0" ≠ ""
  ∧ is_Some (_id_to_object_path (om ex_world_lv0) !! "vg0/lv0")
  ∧ get_object_by_uuid_lvm_id ex_realpath ex_mint (Some "vg0/lv0")
      (Some "vg0/lv0") ex_world_lv0
    = (Return (get_object_by_lvm_id "vg0/lv0" (om ex_world_lv0)), ex_world_lv0).
Proof.
  assert (is_Some (_id_to_object_path (om ex_world_lv0) !! "vg0/lv0")) as Hin
    by (exists "/o1"; vm_compute; reflexivity).
  split; [discriminate|]. split; [exact Hin|].
  apply (lookup_by_one_identifier ex_realpath ex_mint "vg0/lv0" ex_world_lv0);
    [discriminate|exact Hin].
Defined.

(** X10 after [register_object(ex_lv0)]. *)
Lemma returned_path_is_registered_witness :
  (get_object_path_by_uuid_lvm_id ex_realpath ex_mint (Some "u1")
     (Some "vg0/lv1") None false
     (run ex_realpath ex_mint [Register ex_lv0 false] world_init)).1
  = Return (Some "/o1")
  ∧ is_Some
      (_objects
         (om (get_object_path_by_uuid_lvm_id ex_realpath ex_mint (Some "u1")
                (Some "vg0/lv1") None false
                (run ex_realpath ex_mint [Register ex_lv0 false] world_init)).2)
       !! "/o1").
Proof.
  assert ((get_object_path_by_uuid_lvm_id ex_realpath ex_mint (Some "u1")
             (Some "vg0/lv1") None false
             (run ex_realpath ex_mint [Register ex_lv0 false] world_init)).1
          = Return (Some "/o1")) as Hres by (vm_compute; reflexivity).
  split; [exact Hres|].
  exact (returned_path_is_registered ex_realpath ex_mint [Register ex_lv0 false]
           (Some "u1") (Some "vg0/lv1") None false "/o1" Hres).
Defined.

(** X12 after [register_object(ex_lv0)]. *)
Lemma index_keys_are_identifiers_witness :
  _id_to_object_path (om (run ex_realpath ex_mint [Register ex_lv0 false] world_init))
    !! "u1" = Some "/o1"
  ∧ "u1" ≠ "".
Proof.
  assert (_id_to_object_path
            (om (run ex_realpath ex_mint [Register ex_lv0 false] world_init))
            !! "u1" = Some "/o1") as Hidx by (vm_compute; reflexivity).
  split; [exact Hidx|].
  exact (proj1 (index_keys_are_identifiers ex_realpath ex_mint
                  [Register ex_lv0 false] "u1" "/o1" Hidx)).
Defined.

(** X13 at [ex_world_lv0]: the path of [ex_lv1] is made, then [ex_lv1] is
    registered. *)
Lemma create_path_then_register_witness :
  settled_lvm_id (Some ex_lv_generate) "vg0/lv1" = Some "vg0/lv1"
  ∧ truthy (_id_lookup ex_realpath (Some "u2") (om ex_world_lv0)) = false
  ∧ truthy (_id_lookup ex_realpath (Some "vg0/lv1") (om ex_world_lv0)) = false
  ∧ dbus_object_path ex_lv1 = ex_mint ex_lv_generate (generated ex_world_lv0)
  ∧ get_object_by_uuid_lvm_id ex_realpath ex_mint (Some "u2") (Some "vg0/lv1")
      (register_object ex_lv1 true
         (get_object_path_by_uuid_lvm_id ex_realpath ex_mint (Some "u2")
            (Some "vg0/lv1") (Some ex_lv_generate) true ex_world_lv0).2).2
    = (Return (Some ex_lv1),
       (register_object ex_lv1 true
          (get_object_path_by_uuid_lvm_id ex_realpath ex_mint (Some "u2")
             (Some "vg0/lv1") (Some ex_lv_generate) true ex_world_lv0).2).2).
Proof.
  split; [vm_compute; reflexivity|]. split; [vm_compute; reflexivity|].
  split; [vm_compute; reflexivity|]. split; [vm_compute; reflexivity|].
  pose proof (create_path_then_register ex_realpath ex_mint "u2" "vg0/lv1"
                ex_lv_generate ex_lv1 true ex_world_lv0) as H.
  cbv zeta in H. destruct H as (_ & _ & H & _);
    [discriminate|discriminate|discriminate|vm_compute; reflexivity
    |vm_compute; reflexivity|vm_compute; reflexivity|vm_compute; discriminate
    |vm_compute; reflexivity|reflexivity|reflexivity|eauto|].
  exact H.
Defined.

(** X15 for the thread 1 and a new lock. *)
Lemma guard_enter_exit_witness :
  RLock_wf RLock_new ∧ rl_owner RLock_new = None
  ∧ ∃ held,
      __enter__ 1 locked RLock_new = Done (locked, held)
      ∧ __exit__ 1 locked held = Done ({| _lock := None |}, RLock_new).
Proof.
  split; [reflexivity|]. split; [reflexivity|].
  destruct (guard_enter_exit 1 RLock_new) as (held & H1 & _ & _ & H2);
    [reflexivity|left; reflexivity|].
  exists held. split; [exact H1|exact H2].
Defined.

(** X16 for the thread 1, which holds the lock at level 1. *)
Lemma guard_single_use_witness :
  __exit__ 1 locked {| rl_owner := Some 1; rl_level := 1 |}
  = Done ({| _lock := None |}, RLock_new)
  ∧ __enter__ 1 {| _lock := None |} RLock_new = RaisesAttributeError.
Proof.
  split; [reflexivity|].
  apply (guard_single_use 1 1 locked {| _lock := None |}
           {| rl_owner := Some 1; rl_level := 1 |} RLock_new RLock_new).
  reflexivity.
Defined.
